(** * Log consolidation pipeline (stats_log_consolidation/index.js)

    A shallow embedding of the Lambda function that merges the per-session
    log fragments stored under [log/tbcdXXXX/] into one file per loader and
    day, and of the properties stated about it.

    Conventions of the embedding:
    - JavaScript strings are [string]s.  Keys are listed with
      [EncodingType: 'URL'], so they are ASCII; object bodies are byte
      strings and are decoded with [Buffer.toString('ascii')].
    - [undefined] is [None] in an [option].
    - A promise chain is a computation in the monad [M]: it threads the
      state of the object store, resolves or rejects, and emits the list of
      store requests it issued (a ghost trace, never read by the code).
    - [console.log] and [console.error] have no effect on any result and
      are left out. *)

From Stdlib Require Import String Ascii List Bool Arith ZArith Lia.
Import ListNotations.
Local Open Scope string_scope.
Local Open Scope list_scope.
Local Open Scope nat_scope.

Set Implicit Arguments.
Set Warnings "-register-all".

(* ================================================================= *)
(** ** Characters and strings as JavaScript sees them *)

Module Js.

Definition code (c : ascii) : nat := nat_of_ascii c.

Definition isUpper (c : ascii) : bool := (65 <=? code c) && (code c <=? 90).
Definition isLower (c : ascii) : bool := (97 <=? code c) && (code c <=? 122).

(** [String.prototype.toLowerCase] / [toUpperCase] on one code unit. *)
Definition lowerChar (c : ascii) : ascii :=
  if isUpper c then ascii_of_nat (code c + 32) else c.
Definition upperChar (c : ascii) : ascii :=
  if isLower c then ascii_of_nat (code c - 32) else c.

Fixpoint toLowerCase (s : string) : string :=
  match s with
  | EmptyString => EmptyString
  | String c s' => String (lowerChar c) (toLowerCase s')
  end.

(** [s.startsWith(p)] *)
Fixpoint startsWith (s p : string) : bool :=
  match p, s with
  | EmptyString, _ => true
  | String _ _, EmptyString => false
  | String a p', String b s' => Ascii.eqb a b && startsWith s' p'
  end.

(** [\d] *)
Definition isDigit (c : ascii) : bool := (48 <=? code c) && (code c <=? 57).

(** Line terminators, which [.] does not match (the two of them that fit
    in a byte). *)
Definition isLineTerminator (c : ascii) : bool :=
  (code c =? 10) || (code c =? 13).

(** Comparison of a pattern character with an input character under the
    [i] flag: both are canonicalised with [toUpperCase]. *)
Definition eqbIgnoreCase (p c : ascii) : bool :=
  Ascii.eqb (upperChar p) (upperChar c).

(** [logData.charAt(logData.length - 1)], as an option ([None] for the
    empty string, where [charAt] gives the empty string). *)
Fixpoint lastChar (s : string) : option ascii :=
  match s with
  | EmptyString => None
  | String c EmptyString => Some c
  | String _ s' => lastChar s'
  end.

(** The concatenation [l.join('')] of a list of strings. *)
Fixpoint join (l : list string) : string :=
  match l with
  | [] => EmptyString
  | s :: l' => (s ++ join l')%string
  end.

(** [l.join(', ')] is only used for logging. *)

End Js.

(* ================================================================= *)
(** ** A backtracking matcher for the regular expressions of the source *)

Module Regex.

(** The fragment of the regular-expression syntax that [nameRe] uses.
    [Group i r] is the [i]-th capturing parenthesis. *)
Inductive re : Type :=
| Eps : re
| Lit : ascii -> re               (* a character, escaped or not *)
| Digit : re                      (* \d *)
| Dot : re                        (* . *)
| Seq : re -> re -> re
| Opt : re -> re                  (* r?  (greedy) *)
| Group : nat -> re -> re.

(** [r{n}] *)
Fixpoint times (n : nat) (r : re) : re :=
  match n with
  | O => Eps
  | S n' => Seq r (times n' r)
  end.

(** Up to [n] further greedy repetitions of [r]. *)
Fixpoint upto (n : nat) (r : re) : re :=
  match n with
  | O => Eps
  | S n' => Opt (Seq r (upto n' r))
  end.

(** [r{lo,hi}] *)
Definition rep (lo hi : nat) (r : re) : re :=
  Seq (times lo r) (upto (hi - lo) r).

(** A literal string. *)
Fixpoint lits (s : string) : re :=
  match s with
  | EmptyString => Eps
  | String c s' => Seq (Lit c) (lits s')
  end.

Fixpoint seqs (l : list re) : re :=
  match l with
  | [] => Eps
  | r :: l' => Seq r (seqs l')
  end.

(** Captures: group number to captured text, [None] for [undefined]. *)
Definition captures : Type := nat -> option string.

Definition noCaptures : captures := fun _ => None.

Definition setCapture (i : nat) (v : string) (c : captures) : captures :=
  fun j => if Nat.eqb j i then Some v else c j.

(** The matcher, in continuation-passing style so that a later failure
    backtracks into the choices of [Opt].  [ci] is the [i] flag.  The
    continuation receives the text matched by [r], the rest of the input
    and the captures. *)
Fixpoint matchRe (ci : bool) (r : re) (s : string) (c : captures)
         (k : string -> string -> captures -> option captures)
  : option captures :=
  match r with
  | Eps => k EmptyString s c
  | Lit p =>
      match s with
      | String a s' =>
          if (if ci then Js.eqbIgnoreCase p a else Ascii.eqb p a)
          then k (String a EmptyString) s' c else None
      | EmptyString => None
      end
  | Digit =>
      match s with
      | String a s' =>
          if Js.isDigit a then k (String a EmptyString) s' c else None
      | EmptyString => None
      end
  | Dot =>
      match s with
      | String a s' =>
          if Js.isLineTerminator a then None
          else k (String a EmptyString) s' c
      | EmptyString => None
      end
  | Seq r1 r2 =>
      matchRe ci r1 s c (fun m1 s1 c1 =>
        matchRe ci r2 s1 c1 (fun m2 s2 c2 => k (m1 ++ m2)%string s2 c2))
  | Opt r1 =>
      match matchRe ci r1 s c k with
      | Some res => Some res
      | None => k EmptyString s c
      end
  | Group i r1 =>
      matchRe ci r1 s c (fun m1 s1 c1 => k m1 s1 (setCapture i m1 c1))
  end.

(** [re.exec(s)] for a pattern that starts with [^] and has [ngroups]
    capturing groups: the match is only tried at position 0; the result is
    [null] ([None]) or the array [[match, group 1, ..., group ngroups]]. *)
Definition exec (ci : bool) (ngroups : nat) (r : re) (s : string)
  : option (list (option string)) :=
  match matchRe ci r s noCaptures
          (fun m _ c => Some (setCapture 0 m c)) with
  | Some c => Some (map c (seq 0 (S ngroups)))
  | None => None
  end.

End Regex.

(* ================================================================= *)
(** ** The fragment naming pattern *)

Import Regex.

(** [/^log\/(tbcd....)\/((\d{4})(\d{2})(\d{2}))T(\d{6}(\.\d{3,6}))?Z?.log/i] *)
Definition nameRe_body : re :=
  seqs [ lits "log/";
         Group 1 (Seq (lits "tbcd") (times 4 Dot));
         Lit "/";
         Group 2 (seqs [ Group 3 (times 4 Digit);
                         Group 4 (times 2 Digit);
                         Group 5 (times 2 Digit) ]);
         Lit "T";
         Opt (Group 6 (Seq (times 6 Digit)
                           (Group 7 (Seq (Lit ".") (rep 3 6 Digit)))));
         Opt (Lit "Z");
         Dot;
         lits "log" ].

Definition nameRe_exec (item : string) : option (list (option string)) :=
  exec true 7 nameRe_body item.

Definition TBCDIX := 1.
Definition DATEIX := 2.
Definition YEARIX := 3.
Definition MONTHIX := 4.
Definition DAYIX := 5.
Definition TIMEIX := 6.
Definition MINLENGTH := 7.

(** [parse[i]]: out of range is [undefined]. *)
Definition at_ (parse : list (option string)) (i : nat) : option string :=
  nth i parse None.

(** [`${v}`] and ['' + v]: [undefined] prints as the word. *)
Definition toStr (v : option string) : string :=
  match v with
  | Some s => s
  | None => "undefined"
  end.

(* ================================================================= *)
(** ** Errors, promises and the object store *)

(** An error value: [err.code] ([undefined] for a plain JavaScript error)
    and its text. *)
Record Error : Type := mkError {
  code : option string;
  message : string
}.

(** What a promise settles to; also the completion of synchronous code
    that may throw. *)
Inductive Result (A : Type) : Type :=
| Resolved (a : A)
| Rejected (e : Error).
Arguments Resolved {A} a.
Arguments Rejected {A} e.

Definition errorOf {A} (r : Result A) : option Error :=
  match r with
  | Resolved _ => None
  | Rejected e => Some e
  end.

(** [data.Body] of a [getObject] response.  [Buffer bytes] is the usual
    case.  [Throwing ex] stands for any body on which [toString('ascii')]
    throws an exception whose [toString()] is [ex]. *)
Inductive BodyT : Type :=
| Buffer (bytes : string)
| Throwing (ex : string).

(** [data.CommonPrefixes.map(o => o.Prefix)] and
    [data.Contents.map(o => o.Key)] of a [listObjectsV2] response. *)
Record ListOutput : Type := mkListOutput {
  CommonPrefixes : list string;
  Contents : list string
}.

(** The requests the code sends to the store ([Bucket], [Delimiter],
    [EncodingType] and [ContentType] are constants of the source). *)
Inductive Request : Type :=
| ListObjectsV2 (Prefix : string)
| GetObject (Key : string)
| PutObject (Key : string) (Body : string)
| DeleteObjects (Keys : list string).

(** One entry of the trace: the request and whether the store failed it. *)
Record Event : Type := mkEvent {
  request : Request;
  failure : option Error
}.

(** The client [s3]: each operation answers and moves the store from one
    state to the next.  Nothing is assumed about the answers. *)
Record S3 (W : Type) : Type := mkS3 {
  listObjectsV2 : string -> W -> Result ListOutput * W;
  getObject : string -> W -> Result BodyT * W;
  putObject : string -> string -> W -> Result unit * W;
  deleteObjects : list string -> W -> Result unit * W
}.

(** A promise-returning computation over store states [W]. *)
Definition M (W A : Type) : Type := W -> Result A * W * list Event.

Section Promise.
Context {W : Type}.

Definition resolve {A} (a : A) : M W A := fun w => (Resolved a, w, []).
Definition reject {A} (e : Error) : M W A := fun w => (Rejected e, w, []).

(** [p.then(f)] *)
Definition then_ {A B} (p : M W A) (f : A -> M W B) : M W B :=
  fun w =>
    match p w with
    | (Resolved a, w1, t1) =>
        let '(r, w2, t2) := f a w1 in (r, w2, t1 ++ t2)
    | (Rejected e, w1, t1) => (Rejected e, w1, t1)
    end.

(** [p.catch(h)] *)
Definition catch_ {A} (p : M W A) (h : Error -> M W A) : M W A :=
  fun w =>
    match p w with
    | (Resolved a, w1, t1) => (Resolved a, w1, t1)
    | (Rejected e, w1, t1) =>
        let '(r, w2, t2) := h e w1 in (r, w2, t1 ++ t2)
    end.

(** A synchronous result entering a chain: a throw inside a [then]
    callback rejects the promise. *)
Definition settle {A} (r : Result A) : M W A := fun w => (r, w, []).

(** [s3.op(params).promise()] *)
Definition send {A} (rq : Request) (op : W -> Result A * W) : M W A :=
  fun w =>
    let '(r, w1) := op w in
    (r, w1, [mkEvent rq (errorOf r)]).

End Promise.

(** The three parts of a run: what it settles to, the store it leaves and
    the requests it made. *)
Definition outcome {R W} (x : R * W * list Event) : R := fst (fst x).
Definition final {R W} (x : R * W * list Event) : W := snd (fst x).
Definition trace {R W} (x : R * W * list Event) : list Event := snd x.

(* ================================================================= *)
(** ** The data model *)

(** An item of the list made by [partitionByDays]; [log] and [priorLog] are
    attached while it flows through the consolidation. *)
Record DailyLogInfo : Type := mkDailyLogInfo {
  year : option string;
  month : option string;
  day : option string;
  logKeys : list string;
  tb : option string;
  key : string;
  log : option string;
  priorLog : option string
}.

Definition push_logKey (item : string) (d : DailyLogInfo) : DailyLogInfo :=
  mkDailyLogInfo (year d) (month d) (day d) (logKeys d ++ [item]) (tb d)
                 (key d) (log d) (priorLog d).

Definition set_log (v : string) (d : DailyLogInfo) : DailyLogInfo :=
  mkDailyLogInfo (year d) (month d) (day d) (logKeys d) (tb d) (key d)
                 (Some v) (priorLog d).

Definition set_priorLog (v : string) (d : DailyLogInfo) : DailyLogInfo :=
  mkDailyLogInfo (year d) (month d) (day d) (logKeys d) (tb d) (key d)
                 (log d) (Some v).

(* ================================================================= *)
(** ** partitionByDays *)

(** The variable [currentDate]: the number [-1] at first, later a value of
    [parse[DATEIX]]. *)
Inductive DateVar : Type :=
| MinusOne
| DateIs (d : option string).

Definition option_string_eqb (a b : option string) : bool :=
  match a, b with
  | Some x, Some y => String.eqb x y
  | None, None => true
  | _, _ => false
  end.

(** [currentDate !== v] *)
Definition strictNe (cur : DateVar) (v : option string) : bool :=
  match cur with
  | MinusOne => true
  | DateIs d => negb (option_string_eqb d v)
  end.

(** The variables that the [forEach] callback of [partitionByDays]
    updates. *)
Record PartState : Type := mkPartState {
  listOfDailyLogInfo : list DailyLogInfo;
  dailyLogInfo : option DailyLogInfo;
  currentDate : DateVar
}.

(** [dailyLogInfo && listOfDailyLogInfo.push(dailyLogInfo)] *)
Definition pushCurrent (st : PartState) : list DailyLogInfo :=
  match dailyLogInfo st with
  | Some d => listOfDailyLogInfo st ++ [d]
  | None => listOfDailyLogInfo st
  end.

Definition TypeError : Error :=
  mkError None "TypeError: Cannot read property 'logKeys' of undefined".

(** One call of the [forEach] callback. *)
Definition partitionStep (st : PartState) (item : string)
  : Result PartState :=
  match nameRe_exec item with
  | Some parse =>
      if MINLENGTH <=? length parse then
        let st1 :=
          if strictNe (currentDate st) (at_ parse DATEIX) then
            mkPartState
              (pushCurrent st)
              (Some (mkDailyLogInfo
                       (at_ parse YEARIX) (at_ parse MONTHIX)
                       (at_ parse DAYIX) [] (at_ parse TBCDIX)
                       ("log/" ++ toStr (at_ parse YEARIX) ++ "/"
                          ++ toStr (at_ parse MONTHIX) ++ "/"
                          ++ toStr (at_ parse TBCDIX) ++ "-"
                          ++ toStr (at_ parse DAYIX) ++ ".log")%string
                       None None))
              (DateIs (at_ parse DATEIX))
          else st in
        match dailyLogInfo st1 with
        | Some d =>
            Resolved (mkPartState (listOfDailyLogInfo st1)
                                  (Some (push_logKey item d))
                                  (currentDate st1))
        | None => Rejected TypeError
        end
      else Resolved st
  | None => Resolved st
  end.

(** [listOfLogs.forEach(...)]: an exception leaves the loop. *)
Fixpoint partitionLoop (st : PartState) (listOfLogs : list string)
  : Result PartState :=
  match listOfLogs with
  | [] => Resolved st
  | item :: rest =>
      match partitionStep st item with
      | Resolved st' => partitionLoop st' rest
      | Rejected e => Rejected e
      end
  end.

Definition partitionByDays (listOfLogs : list string)
  : Result (list DailyLogInfo) :=
  match partitionLoop (mkPartState [] None MinusOne) listOfLogs with
  | Resolved st => Resolved (pushCurrent st)
  | Rejected e => Rejected e
  end.

(* ================================================================= *)
(** ** The pipeline *)

Definition NEWLINE : ascii := ascii_of_nat 10.

(** [data.Body.toString('ascii')]: decoding as ['ascii'] clears the high
    bit of every byte. *)
Fixpoint asciiSlice (bytes : string) : string :=
  match bytes with
  | EmptyString => EmptyString
  | String b rest =>
      String (ascii_of_nat (Nat.land (nat_of_ascii b) 127)) (asciiSlice rest)
  end.

Definition toString_ascii (body : BodyT) : string + string :=
  match body with
  | Buffer bytes => inl (asciiSlice bytes)
  | Throwing ex => inr ex
  end.

(** [logData && logData.charAt(logData.length - 1) !== '\n'] *)
Definition lacksNewline (logData : string) : bool :=
  match Js.lastChar logData with
  | Some c => negb (Ascii.eqb c NEWLINE)
  | None => false
  end.

Definition terminate (logData : string) : string :=
  if lacksNewline logData
  then (logData ++ String NEWLINE EmptyString)%string
  else logData.

(** The [then] callback of [readFile], with its [try]/[catch]. *)
Definition decodeBody (key : string) (body : BodyT) : string :=
  match toString_ascii body with
  | inl logData => terminate logData
  | inr ex =>
      ("Exception reading log (" ++ key ++ "): " ++ ex
         ++ String NEWLINE EmptyString)%string
  end.

(** [(dailyLogInfo.priorLog || '')] *)
Definition orEmpty (v : option string) : string :=
  match v with
  | Some s => s
  | None => EmptyString
  end.

Section Pipeline.
Context {W : Type} (s3 : S3 W).

(** [walkListWithPromises]: [processOne ix] works on the items of the list
    from index [ix] on, which is the argument [rest] here. *)
Fixpoint processOne {A B} (fn : A -> M W B) (rest : list A)
         (resultlist : list B) : M W (list B) :=
  match rest with
  | [] => resolve resultlist
  | item :: rest' =>
      then_ (fn item)
            (fun data => processOne fn rest' (resultlist ++ [data]))
  end.

Definition walkListWithPromises {A B} (items : list A) (fn : A -> M W B)
  : M W (list B) :=
  processOne fn items [].

Definition readFile (key : string) : M W string :=
  then_ (send (GetObject key) (getObject s3 key))
        (fun data => resolve (decodeBody key data)).

Definition getTbLoaderList : M W (list string) :=
  then_ (send (ListObjectsV2 "log/") (listObjectsV2 s3 "log/"))
        (fun data =>
           resolve (filter
                      (fun item =>
                         Js.startsWith (Js.toLowerCase item) "log/tbcd")
                      (CommonPrefixes data))).

Definition getLogFileList (tbcd : string) : M W (list string) :=
  then_ (send (ListObjectsV2 tbcd) (listObjectsV2 s3 tbcd))
        (fun data => resolve (Contents data)).

Definition readLogsForDay (dailyLogInfo : DailyLogInfo)
  : M W DailyLogInfo :=
  then_ (walkListWithPromises (logKeys dailyLogInfo) readFile)
        (fun logData => resolve (set_log (Js.join logData) dailyLogInfo)).

Definition readPriorConsolidation (dailyLogInfo : DailyLogInfo)
  : M W DailyLogInfo :=
  catch_ (then_ (readFile (key dailyLogInfo))
                (fun data => resolve (set_priorLog data dailyLogInfo)))
         (fun err =>
            if option_string_eqb (code err) (Some "NoSuchKey")
            then resolve (set_priorLog EmptyString dailyLogInfo)
            else reject err).

Definition writeConsolidatedLog (dailyLogInfo : DailyLogInfo)
  : M W DailyLogInfo :=
  let body :=
    (orEmpty (priorLog dailyLogInfo) ++ toStr (log dailyLogInfo))%string in
  then_ (send (PutObject (key dailyLogInfo) body)
              (putObject s3 (key dailyLogInfo) body))
        (fun _ => resolve dailyLogInfo).

Definition consolidateDailyLog (dailyLogInfo : DailyLogInfo)
  : M W DailyLogInfo :=
  then_ (then_ (readLogsForDay dailyLogInfo) readPriorConsolidation)
        writeConsolidatedLog.

Definition consolidateDailyLogs (listOfDailyLogInfo : list DailyLogInfo)
  : M W (list DailyLogInfo) :=
  walkListWithPromises listOfDailyLogInfo consolidateDailyLog.

Definition removeLogItems (items : list string) : M W Z :=
  then_ (send (DeleteObjects items) (deleteObjects s3 items))
        (fun _ => resolve 0%Z).

(** [keysToRemove] is assigned in the first callback and read in the
    last one. *)
Definition processTbLoader (tbcd : string) : M W Z :=
  then_ (getLogFileList tbcd)
        (fun logFileList =>
           let keysToRemove := logFileList in
           then_ (then_ (settle (partitionByDays logFileList))
                        consolidateDailyLogs)
                 (fun _ => removeLogItems keysToRemove)).

Definition processTbLoaderList (items : list string) : M W (list Z) :=
  walkListWithPromises items processTbLoader.

End Pipeline.

(** What the handler passes to [callback]. *)
Inductive JsValue : Type :=
| JsUndefined
| JsNumber (z : Z)
| JsGroup (g : DailyLogInfo)
| JsArray (l : list JsValue).

Record CallbackArgs : Type := mkCallbackArgs {
  cb_err : option Error;
  cb_result : JsValue
}.

(** [exports.handler]: [event] and [context] are not used; the result is
    the call of [callback] that ends the invocation. *)
Definition handler {W} (s3 : S3 W) (w : W)
  : CallbackArgs * W * list Event :=
  match then_ (getTbLoaderList s3) (processTbLoaderList s3) w with
  | (Resolved result, w', t) =>
      (mkCallbackArgs None (JsArray (map JsNumber result)), w', t)
  | (Rejected err, w', t) =>
      (mkCallbackArgs (Some err) JsUndefined, w', t)
  end.

(* ================================================================= *)
(** ** A reference object store

    An in-memory store that follows the contract of the object store
    (listing by prefix with the delimiter [/], in key order; [get] fails
    with [NoSuchKey] on an absent key; [put] replaces in full; a batch
    delete), with injected faults.  It is the store of the scenarios; the
    general theorems hold for every client [s3]. *)

Module MemStore.

Record t : Type := mk {
  objects : list (string * BodyT);       (* in key order *)
  faults : Request -> option Error       (* requests that the store fails *)
}.

Definition NoSuchKey : Error :=
  mkError (Some "NoSuchKey") "NoSuchKey: The specified key does not exist.".

Fixpoint dropChars (n : nat) (s : string) : string :=
  match n, s with
  | S n', String _ s' => dropChars n' s'
  | _, _ => s
  end.

(** The text up to and including the first [/], if there is one. *)
Fixpoint uptoSlash (s : string) : option string :=
  match s with
  | EmptyString => None
  | String c s' =>
      if Ascii.eqb c "/" then Some (String c EmptyString)
      else match uptoSlash s' with
           | Some p => Some (String c p)
           | None => None
           end
  end.

Definition addPrefix (p : string) (l : list string) : list string :=
  if existsb (String.eqb p) l then l else l ++ [p].

Fixpoint listing (prefix : string) (objs : list (string * BodyT))
         (acc : ListOutput) : ListOutput :=
  match objs with
  | [] => acc
  | (k, _) :: rest =>
      listing prefix rest
        (if Js.startsWith k prefix then
           match uptoSlash (dropChars (String.length prefix) k) with
           | Some d =>
               mkListOutput
                 (addPrefix (prefix ++ d)%string (CommonPrefixes acc))
                 (Contents acc)
           | None =>
               mkListOutput (CommonPrefixes acc) (Contents acc ++ [k])
           end
         else acc)
  end.

Fixpoint lookup (k : string) (objs : list (string * BodyT))
  : option BodyT :=
  match objs with
  | [] => None
  | (k', b) :: rest => if String.eqb k k' then Some b else lookup k rest
  end.

Fixpoint store (k : string) (b : BodyT) (objs : list (string * BodyT))
  : list (string * BodyT) :=
  match objs with
  | [] => [(k, b)]
  | (k', b') :: rest =>
      if String.eqb k k' then (k, b) :: rest
      else if String.ltb k k' then (k, b) :: (k', b') :: rest
      else (k', b') :: store k b rest
  end.

Definition remove (ks : list string) (objs : list (string * BodyT))
  : list (string * BodyT) :=
  filter (fun kb => negb (existsb (String.eqb (fst kb)) ks)) objs.

Definition answer {A} (rq : Request) (w : t) (ok : Result A * t)
  : Result A * t :=
  match faults w rq with
  | Some e => (Rejected e, w)
  | None => ok
  end.

Definition s3 : S3 t :=
  mkS3
    (fun prefix w =>
       answer (ListObjectsV2 prefix) w
              (Resolved (listing prefix (objects w) (mkListOutput [] [])),
               w))
    (fun k w =>
       answer (GetObject k) w
              (match lookup k (objects w) with
               | Some b => Resolved b
               | None => Rejected NoSuchKey
               end, w))
    (fun k body w =>
       answer (PutObject k body) w
              (Resolved tt, mk (store k (Buffer body) (objects w)) (faults w)))
    (fun ks w =>
       answer (DeleteObjects ks) w
              (Resolved tt, mk (remove ks (objects w)) (faults w))).

Definition noFaults : Request -> option Error := fun _ => None.

End MemStore.

(* ================================================================= *)
(** ** Notions used in the statements *)

Unset Implicit Arguments.

(** The capturing groups of a regular expression. *)
Fixpoint reGroups (r : re) : list nat :=
  match r with
  | Seq r1 r2 => reGroups r1 ++ reGroups r2
  | Opt r1 => reGroups r1
  | Group i r1 => i :: reGroups r1
  | _ => []
  end.

(** A key matches the fragment naming pattern of the code. *)
Definition matchesName (item : string) : bool :=
  match nameRe_exec item with
  | Some _ => true
  | None => false
  end.

(** A capture of the pattern on a key ([None] when the key does not match
    or the group took no part in the match). *)
Definition keyGroup (ix : nat) (item : string) : option string :=
  match nameRe_exec item with
  | Some parse => at_ parse ix
  | None => None
  end.

Definition keyDate : string -> option string := keyGroup DATEIX.
Definition keyTb : string -> option string := keyGroup TBCDIX.

(** The date of a group, from its fields. *)
Definition groupDate (g : DailyLogInfo) : option string :=
  match year g, month g, day g with
  | Some y, Some m, Some d => Some (y ++ m ++ d)%string
  | _, _, _ => None
  end.

(** The consolidated key, as a function of source and day. *)
Definition consolidatedKey (tbv y m d : string) : string :=
  ("log/" ++ y ++ "/" ++ m ++ "/" ++ tbv ++ "-" ++ d ++ ".log")%string.

(** A group as the partitioner makes them: it has members, they all match
    the pattern and carry the date of the group; year, month and day of the
    group are the captures of (any of) its members, and [tb] is the loader
    captured on the first member. *)
Record GroupOk (g : DailyLogInfo) : Prop := mkGroupOk {
  ok_nonempty : logKeys g <> [];
  ok_date : groupDate g <> None;
  ok_tb : exists k rest, logKeys g = k :: rest /\ tb g = keyTb k;
  ok_fresh : log g = None /\ priorLog g = None;
  ok_key : key g =
           consolidatedKey (toStr (tb g)) (toStr (year g))
                           (toStr (month g)) (toStr (day g));
  ok_members : forall k, In k (logKeys g) ->
      matchesName k = true /\
      keyDate k = groupDate g /\
      keyGroup YEARIX k = year g /\
      keyGroup MONTHIX k = month g /\
      keyGroup DAYIX k = day g
}.

(** Equal elements of a list are never separated by a different one. *)
Definition contiguous {A} (l : list A) : Prop :=
  forall l1 x l2 l3 z,
    l = l1 ++ x :: l2 ++ x :: l3 -> In z l2 -> z = x.

(** No two neighbours are equal. *)
Fixpoint adjacentDistinct {A} (l : list A) : Prop :=
  match l with
  | x :: (y :: _) as l' => x <> y /\ adjacentDistinct l'
  | _ => True
  end.

(** The invariant of the loop of [partitionByDays]. *)
Definition PartInv (st : PartState) : Prop :=
  Forall GroupOk (pushCurrent st) /\
  adjacentDistinct (map groupDate (pushCurrent st)) /\
  match currentDate st, dailyLogInfo st with
  | MinusOne, None => listOfDailyLogInfo st = []
  | DateIs d, Some g => d = groupDate g
  | _, _ => False
  end.

(** The partition is by source and date: what is claimed of the groups. *)
Definition partitionsBySourceAndDate (groups : list DailyLogInfo) : Prop :=
  forall g k, In g groups -> In k (logKeys g) ->
              keyTb k = tb g /\ keyDate k = groupDate g.

Definition noGroup : DailyLogInfo :=
  mkDailyLogInfo None None None [] None EmptyString None None.

(** A decision procedure for [contiguous] on lists of dates. *)
Fixpoint dropWhileEq (x : option string) (l : list (option string))
  : list (option string) :=
  match l with
  | [] => []
  | y :: l' => if option_string_eqb x y then dropWhileEq x l' else l
  end.

Fixpoint contiguousb (l : list (option string)) : bool :=
  match l with
  | [] => true
  | x :: l' =>
      negb (existsb (option_string_eqb x) (dropWhileEq x l')) &&
      contiguousb l'
  end.

(** Sample keys. *)
Definition key_0730_a : string := "log/tbcd1234/20210730T131711.123Z.log".
Definition key_0730_b : string := "log/tbcd1234/20210730T140000Z.log".
Definition key_0730_c : string := "log/tbcd1234/20210730T150000.000Z.log".
Definition key_0731_a : string := "log/tbcd1234/20210731T080000.000Z.log".
Definition key_readme : string := "log/tbcd1234/readme.txt".
Definition key_missing : string := "log/tbcd1234/20210730T145959.000Z.log".

(** [Steps fn w items results w' t]: the units [items] are run by [fn] one
    after the other from the store state [w], each one from the state the
    previous one left, all of them resolve, with [results] in order; [w']
    is the state after the last one and [t] the requests of all, in order. *)
Inductive Steps {W A B} (fn : A -> M W B)
  : W -> list A -> list B -> W -> list Event -> Prop :=
| Steps_nil : forall w, Steps fn w [] [] w []
| Steps_cons : forall w item b w1 t1 rest bs w2 t2,
    fn item w = (Resolved b, w1, t1) ->
    Steps fn w1 rest bs w2 t2 ->
    Steps fn w (item :: rest) (b :: bs) w2 (t1 ++ t2).

(** [FailsAt fn w items e w' t]: the units of [items] resolve in order up
    to one that rejects with [e]; [w'] and [t] are the state and the
    requests at that point.  The units after it play no part. *)
Definition FailsAt {W A B} (fn : A -> M W B) (w : W) (items : list A)
           (e : Error) (w' : W) (t : list Event) : Prop :=
  exists done item rest (bs : list B) w1 t1 t2,
    items = done ++ item :: rest /\
    Steps fn w done bs w1 t1 /\
    fn item w1 = (Rejected e, w', t2) /\
    t = t1 ++ t2.

(** Kinds of requests. *)
Definition isGet (ev : Event) : bool :=
  match request ev with GetObject _ => true | _ => false end.
Definition isPut (ev : Event) : bool :=
  match request ev with PutObject _ _ => true | _ => false end.
Definition isDelete (ev : Event) : bool :=
  match request ev with DeleteObjects _ => true | _ => false end.
Definition isList (ev : Event) : bool :=
  match request ev with ListObjectsV2 _ => true | _ => false end.

Definition getOrPut (ev : Event) : Prop :=
  isGet ev = true \/ isPut ev = true.

(** The request that fetches the body of an object. *)
Definition fetch {W} (s3 : S3 W) (key : string) : M W BodyT :=
  send (GetObject key) (getObject s3 key).

(** The texts that [readFile] makes of fetched bodies. *)
Definition decodeAll (keys : list string) (bodies : list BodyT)
  : list string :=
  map (fun kb => decodeBody (fst kb) (snd kb)) (combine keys bodies).

(** The groups of a listing ([partitionByDays] never throws). *)
Definition dayGroups (listing : list string) : list DailyLogInfo :=
  match partitionByDays listing with
  | Resolved groups => groups
  | Rejected _ => []
  end.

(** All requests of a computation satisfy [P], whatever the store does. *)
Definition Emits {W A} (P : Event -> Prop) (m : M W A) : Prop :=
  forall w, Forall P (trace (m w)).

(** A rejection is the failure of the last request issued. *)
Definition RejectsLast {W A} (m : M W A) : Prop :=
  forall w e, outcome (m w) = Rejected e ->
              exists t0 rq, trace (m w) = t0 ++ [mkEvent rq (Some e)].

(** How the prior consolidation is read in the state [w1]: the text taken
    as prior content, the state after the request and the failure recorded
    for it.  [None] when the read fails for another reason than an absent
    key. *)
Definition priorRead {W} (s3 : S3 W) (g : DailyLogInfo) (w1 : W)
  : option (string * W * option Error) :=
  match getObject s3 (key g) w1 with
  | (Resolved body, w2) => Some (decodeBody (key g) body, w2, None)
  | (Rejected e, w2) =>
      if option_string_eqb (code e) (Some "NoSuchKey")
      then Some (EmptyString, w2, Some e)
      else None
  end.

(** All bytes are below 128. *)
Fixpoint sevenBit (s : string) : bool :=
  match s with
  | EmptyString => true
  | String c rest => (nat_of_ascii c <? 128) && sevenBit rest
  end.

(** The text ends with a newline. *)
Definition endsWithNewline (s : string) : bool :=
  match Js.lastChar s with
  | Some c => Ascii.eqb c NEWLINE
  | None => false
  end.

(** What is claimed of the reader: a newline is appended to any content
    that lacks one. *)
Definition withTerminator (content : string) : string :=
  if endsWithNewline content then content
  else (content ++ String NEWLINE EmptyString)%string.


(** What is claimed of the handler: the callback receives the summaries of
    the processed groups, with the error if there is one. *)
Definition claimedCallback (processed : list DailyLogInfo)
           (err : option Error) : CallbackArgs :=
  mkCallbackArgs err (JsArray (map JsGroup processed)).

(** The one-character string ['\n']. *)
Definition NL : string := String NEWLINE EmptyString.

(** Stores of the scenarios. *)
Definition artifact_0730 : string := "log/2021/07/tbcd1234-30.log".
Definition artifact_0731 : string := "log/2021/07/tbcd1234-31.log".

Definition group_0730 (keys : list string) : DailyLogInfo :=
  mkDailyLogInfo (Some "2021") (Some "07") (Some "30") keys
                 (Some "tbcd1234") artifact_0730 None None.

Definition store_of (objs : list (string * BodyT)) : MemStore.t :=
  MemStore.mk objs MemStore.noFaults.

(** The two fragments of the end-to-end scenario, no artifact yet. *)
Definition store_scenario : MemStore.t :=
  store_of [ (key_0730_a, Buffer "hello");
             (key_0730_b, Buffer ("world" ++ NL)) ].

(** Two well-named fragments of one day. *)
Definition store_two_fragments : MemStore.t :=
  store_of [ (key_0730_a, Buffer "hello");
             (key_0730_c, Buffer ("world" ++ NL)) ].

(** The same with an empty first fragment. *)
Definition store_empty_fragment : MemStore.t :=
  store_of [ (key_0730_a, Buffer "");
             (key_0730_c, Buffer ("world" ++ NL)) ].

(** A fragment, and an artifact that ends with a newline. *)
Definition store_with_artifact : MemStore.t :=
  store_of [ (artifact_0730, Buffer ("previous" ++ NL));
             (key_0730_a, Buffer "hello") ].

(** A fragment, and an artifact that does not end with a newline. *)
Definition store_open_artifact : MemStore.t :=
  store_of [ (artifact_0730, Buffer "previous");
             (key_0730_a, Buffer "hello") ].

(** A fragment whose body cannot be converted to text. *)
Definition store_unreadable : MemStore.t :=
  store_of [ (key_0730_a, Throwing "TypeError: bad body");
             (key_0730_c, Buffer ("world" ++ NL)) ].

(** A well-named fragment and a stray object under the same prefix. *)
Definition store_stray : MemStore.t :=
  store_of [ (key_0730_a, Buffer "hello");
             (key_readme, Buffer "notes") ].

(** Two fragments of two days; the store fails the write of the second
    day's artifact. *)
Definition AccessDenied : Error :=
  mkError (Some "AccessDenied") "AccessDenied: Access Denied".

Definition failSecondWrite (rq : Request) : option Error :=
  match rq with
  | PutObject k _ =>
      if String.eqb k artifact_0731 then Some AccessDenied else None
  | _ => None
  end.

Definition store_two_days : MemStore.t :=
  MemStore.mk [ (key_0730_a, Buffer "hello");
                (key_0731_a, Buffer "bye") ]
              failSecondWrite.

(** A loader prefix with nothing directly under it. *)
Definition store_nested : MemStore.t :=
  store_of [ ("log/tbcd1234/sub/x.log", Buffer "x") ].

(** The callback of an invocation. *)
Definition callbackOf {W} (x : CallbackArgs * W * list Event)
  : CallbackArgs := fst (fst x).

(** [EmptyListings s3 w paths]: when the loaders of [paths] are processed
    in turn from the state [w], the listing of each of them succeeds and
    holds no key. *)
Inductive EmptyListings {W} (s3 : S3 W) : W -> list string -> Prop :=
| EmptyListings_nil : forall w, EmptyListings s3 w []
| EmptyListings_cons : forall w tbcd rest data w1,
    listObjectsV2 s3 tbcd w = (Resolved data, w1) ->
    Contents data = [] ->
    (forall r w2, deleteObjects s3 [] w1 = (r, w2) ->
                  EmptyListings s3 w2 rest) ->
    EmptyListings s3 w (tbcd :: rest).

(** A listing request, or a delete request that names no key. *)
Definition listOrEmptyDelete (ev : Event) : Prop :=
  isList ev = true \/ request ev = DeleteObjects [].

(* ================================================================= *)
(** ** Further notions *)

(** All characters are decimal digits. *)
Fixpoint allDigits (s : string) : bool :=
  match s with
  | EmptyString => true
  | String c rest => Js.isDigit c && allDigits rest
  end.

(** The test that [getTbLoaderList] applies to a common prefix. *)
Definition isLoaderPath (item : string) : bool :=
  Js.startsWith (Js.toLowerCase item) "log/tbcd".

(** A text as [readFile] returns it from a buffer: seven-bit, and empty or
    ended by a newline. *)
Definition clean (s : string) : bool :=
  sevenBit s &&
  match s with
  | EmptyString => true
  | _ => endsWithNewline s
  end.

(** The text [readFile] makes of the bytes [content]. *)
Definition normalise (content : string) : string :=
  terminate (asciiSlice content).

(** Every write of the trace comes right after a read of the same key. *)
Definition writesFollowReads (t : list Event) : Prop :=
  forall t0 k body o t1,
    t = t0 ++ mkEvent (PutObject k body) o :: t1 ->
    exists t0' o', t0 = t0' ++ [mkEvent (GetObject k) o'].

(** The requests that the run of one loader may send, given what its
    listing returned. *)
Definition loaderRequest (tbcd : string) (listing : list string)
           (ev : Event) : Prop :=
  match request ev with
  | ListObjectsV2 p => p = tbcd
  | GetObject k =>
      (In k listing /\ matchesName k = true) \/
      (exists g, In g (dayGroups listing) /\ k = key g)
  | PutObject k _ =>
      exists g, In g (dayGroups listing) /\ k = key g
  | DeleteObjects ks => ks = listing
  end.

(** The least number of characters a regular expression takes. *)
Fixpoint minLen (r : re) : nat :=
  match r with
  | Eps => 0
  | Lit _ | Digit | Dot => 1
  | Seq r1 r2 => minLen r1 + minLen r2
  | Opt _ => 0
  | Group _ r1 => minLen r1
  end.

(** The text holds no [/]. *)
Fixpoint noSlash (s : string) : bool :=
  match s with
  | EmptyString => true
  | String c rest => negb (Ascii.eqb c "/") && noSlash rest
  end.

(** A common prefix of the listing of ['log/'] with [Delimiter: '/'], as
    [getTbLoaderList] receives them: ['log/'], a name without [/], and the
    delimiter. *)
Definition loaderPrefix (p : string) : Prop :=
  exists name, p = ("log/" ++ name ++ "/")%string /\ noSlash name = true.

(** The [Contents] of a listing with [Prefix: p] and [Delimiter: '/'], as
    [getLogFileList] receives them: keys that start with [p] and have no
    [/] after it. *)
Definition listedUnder (p : string) (keys : list string) : Prop :=
  forall k, In k keys ->
    exists rest, k = (p ++ rest)%string /\ noSlash rest = true.

(** The keys are those of one source: the keys that match carry the same
    loader. *)
Definition oneSource (keys : list string) : Prop :=
  forall k k', In k keys -> In k' keys ->
    matchesName k = true -> matchesName k' = true -> keyTb k = keyTb k'.

(* ================================================================= *)
(** * Properties *)

(** ** The pattern *)

Module RegexFacts.

(** A successful match went through the continuation, with captures that
    differ from the initial ones only at the groups of [r]. *)
Lemma matchRe_frame ci r :
  forall s c k res,
    matchRe ci r s c k = Some res ->
    exists m s' c',
      k m s' c' = Some res /\
      forall i, ~ In i (reGroups r) -> c' i = c i.
Proof.
  induction r as [ | p | | | r1 IH1 r2 IH2 | r1 IH1 | i r1 IH1 ];
    intros s c k res H; simpl in H.
  - eauto.
  - destruct s as [ | a s']; [discriminate | ].
    destruct (if ci then Js.eqbIgnoreCase p a else Ascii.eqb p a);
      [eauto | discriminate].
  - destruct s as [ | a s']; [discriminate | ].
    destruct (Js.isDigit a); [eauto | discriminate].
  - destruct s as [ | a s']; [discriminate | ].
    destruct (Js.isLineTerminator a); [discriminate | eauto].
  - apply IH1 in H. destruct H as (m1 & s1 & c1 & H & F1).
    apply IH2 in H. destruct H as (m2 & s2 & c2 & H & F2).
    exists (m1 ++ m2)%string, s2, c2. split; [exact H | ].
    intros i Hi. simpl in Hi. rewrite in_app_iff in Hi.
    rewrite F2, F1; tauto.
  - destruct (matchRe ci r1 s c k) as [res' | ] eqn:E.
    + injection H as <-. apply IH1 in E. exact E.
    + eauto.
  - apply IH1 in H. destruct H as (m1 & s1 & c1 & H & F1).
    exists m1, s1, (setCapture i m1 c1). split; [exact H | ].
    intros j Hj. simpl in Hj. unfold setCapture.
    destruct (Nat.eqb_spec j i) as [-> | Hne]; [tauto | ].
    apply F1. tauto.
Qed.

Lemma lit_inv ci p s c k res :
  matchRe ci (Lit p) s c k = Some res ->
  exists a s', s = String a s' /\ k (String a EmptyString) s' c = Some res.
Proof.
  simpl. destruct s as [ | a s']; [discriminate | ].
  destruct (if ci then Js.eqbIgnoreCase p a else Ascii.eqb p a);
    [eauto | discriminate].
Qed.

Lemma digit_inv ci s c k res :
  matchRe ci Digit s c k = Some res ->
  exists a s', s = String a s' /\ k (String a EmptyString) s' c = Some res.
Proof.
  simpl. destruct s as [ | a s']; [discriminate | ].
  destruct (Js.isDigit a); [eauto | discriminate].
Qed.

Lemma dot_inv ci s c k res :
  matchRe ci Dot s c k = Some res ->
  exists a s', s = String a s' /\ k (String a EmptyString) s' c = Some res.
Proof.
  simpl. destruct s as [ | a s']; [discriminate | ].
  destruct (Js.isLineTerminator a); [discriminate | eauto].
Qed.

Lemma seq_eq ci r1 r2 s c k :
  matchRe ci (Seq r1 r2) s c k =
  matchRe ci r1 s c (fun m1 s1 c1 =>
    matchRe ci r2 s1 c1 (fun m2 s2 c2 => k (m1 ++ m2)%string s2 c2)).
Proof. reflexivity. Qed.

Lemma group_eq ci i r1 s c k :
  matchRe ci (Group i r1) s c k =
  matchRe ci r1 s c (fun m1 s1 c1 => k m1 s1 (setCapture i m1 c1)).
Proof. reflexivity. Qed.

Lemma eps_eq ci s c k : matchRe ci Eps s c k = k EmptyString s c.
Proof. reflexivity. Qed.

(** One step of the symbolic run of the matcher on an unknown input. *)
Ltac step_re H :=
  first
    [ rewrite seq_eq in H
    | rewrite group_eq in H
    | rewrite eps_eq in H
    | let a := fresh "a" in let s := fresh "s" in
      apply lit_inv in H; destruct H as (a & s & -> & H)
    | let a := fresh "a" in let s := fresh "s" in
      apply digit_inv in H; destruct H as (a & s & -> & H)
    | let a := fresh "a" in let s := fresh "s" in
      apply dot_inv in H; destruct H as (a & s & -> & H) ];
  cbv beta in H.

End RegexFacts.

Import RegexFacts.

(** The array that [nameRe.exec] returns has eight entries; the loader, the
    date and its three parts are always captured, and the date is the
    concatenation of year (4), month (2) and day (2). *)
Lemma nameRe_exec_groups item parse :
  nameRe_exec item = Some parse ->
  exists whole tbv date y m d g6 g7,
    parse = [Some whole; Some tbv; Some date;
             Some y; Some m; Some d; g6; g7] /\
    date = (y ++ m ++ d)%string /\
    String.length y = 4 /\ String.length m = 2 /\ String.length d = 2.
Proof.
  unfold nameRe_exec, exec.
  destruct (matchRe true nameRe_body item noCaptures
              (fun m _ c => Some (setCapture 0 m c))) as [c | ] eqn:H;
    [ | discriminate ].
  intros [= <-].
  unfold nameRe_body in H. cbn [seqs lits times] in H.
  repeat step_re H.
  apply matchRe_frame in H. destruct H as (m6 & s6 & c6 & H & F6).
  cbv beta in H.
  apply matchRe_frame in H. destruct H as (m7 & s7 & c7 & H & F7).
  cbv beta in H. injection H as <-.
  simpl. unfold setCapture at 1 2 3 4 5 6 7 8. simpl.
  rewrite (F7 1), (F7 2), (F7 3), (F7 4), (F7 5),
          (F6 1), (F6 2), (F6 3), (F6 4), (F6 5)
    by (cbv [reGroups rep times upto Nat.sub app In]; lia).
  unfold setCapture. simpl.
  do 8 eexists. split; [reflexivity | ].
  repeat split; reflexivity.
Qed.

(** ** The partitioner *)

Lemma append_inj_length (a a' b b' : string) :
  String.length a = String.length a' ->
  (a ++ b)%string = (a' ++ b')%string -> a = a' /\ b = b'.
Proof.
  revert a'. induction a as [ | c a IH]; intros [ | c' a'] L E;
    simpl in *; try discriminate.
  - auto.
  - injection E as -> E. injection L as L.
    destruct (IH a' L E) as [-> ->]. auto.
Qed.

(** What the pattern captures on a key that matches. *)
Lemma matching_key item :
  matchesName item = true ->
  exists parse tbv y m d,
    nameRe_exec item = Some parse /\
    MINLENGTH <= length parse /\
    at_ parse TBCDIX = Some tbv /\
    at_ parse DATEIX = Some (y ++ m ++ d)%string /\
    at_ parse YEARIX = Some y /\
    at_ parse MONTHIX = Some m /\
    at_ parse DAYIX = Some d /\
    String.length y = 4 /\ String.length m = 2 /\ String.length d = 2.
Proof.
  unfold matchesName.
  destruct (nameRe_exec item) as [parse | ] eqn:E; [ | discriminate ].
  intros _.
  destruct (nameRe_exec_groups _ _ E)
    as (whole & tbv & date & y & m & d & g6 & g7 & -> & -> & Ly & Lm & Ld).
  eexists; exists tbv, y, m, d.
  repeat split; first [ reflexivity | assumption | cbv; lia ].
Qed.

Lemma same_date_same_parts k k' :
  matchesName k = true -> matchesName k' = true ->
  keyDate k = keyDate k' ->
  keyGroup YEARIX k = keyGroup YEARIX k' /\
  keyGroup MONTHIX k = keyGroup MONTHIX k' /\
  keyGroup DAYIX k = keyGroup DAYIX k'.
Proof.
  intros M M' E.
  destruct (matching_key _ M)
    as (p & t & y & m & d & P & _ & _ & D & Y & Mo & Da & Ly & Lm & _).
  destruct (matching_key _ M')
    as (p' & t' & y' & m' & d' & P' & _ & _ & D' & Y' & Mo' & Da' & Ly' & Lm' & _).
  unfold keyDate, keyGroup in *. rewrite P, P' in *.
  rewrite D, D' in E. injection E as E.
  apply append_inj_length in E; [ | congruence ].
  destruct E as [-> E].
  apply append_inj_length in E; [ | congruence ].
  destruct E as [-> ->].
  rewrite Y, Y', Mo, Mo', Da, Da'. auto.
Qed.

Lemma adjacentDistinct_snoc {A} (l : list A) (a b : A) :
  adjacentDistinct (l ++ [a]) -> a <> b ->
  adjacentDistinct ((l ++ [a]) ++ [b]).
Proof.
  induction l as [ | x l IH]; intros H Hab; simpl in *.
  - auto.
  - destruct l as [ | y l]; simpl in *.
    + intuition.
    + destruct H as [Hxy H]. split; [exact Hxy | ]. apply IH; assumption.
Qed.

Lemma option_string_eqb_eq a b : option_string_eqb a b = true <-> a = b.
Proof.
  destruct a as [x | ], b as [y | ]; simpl;
    try (split; [discriminate | congruence]).
  - rewrite String.eqb_eq. split; congruence.
  - tauto.
Qed.

Lemma groupDate_push item g : groupDate (push_logKey item g) = groupDate g.
Proof. reflexivity. Qed.

Lemma pushCurrent_some l g d :
  pushCurrent (mkPartState l (Some g) d) = l ++ [g].
Proof. reflexivity. Qed.

Lemma concat_map_snoc {A B} (f : A -> list B) l x :
  concat (map f (l ++ [x])) = concat (map f l) ++ f x.
Proof.
  rewrite map_app, concat_app. simpl. rewrite app_nil_r. reflexivity.
Qed.

(** A key that does not match leaves the variables of the loop alone. *)
Lemma partitionStep_nomatch st item :
  matchesName item = false -> partitionStep st item = Resolved st.
Proof.
  unfold matchesName, partitionStep.
  destruct (nameRe_exec item); [discriminate | reflexivity].
Qed.

(** A key that matches is pushed on the current group, which is a new one
    when the date changes; the loop never throws. *)
Lemma partitionStep_match st item :
  PartInv st -> matchesName item = true ->
  exists st',
    partitionStep st item = Resolved st' /\
    PartInv st' /\
    concat (map logKeys (pushCurrent st')) =
    concat (map logKeys (pushCurrent st)) ++ [item].
Proof.
  intros (Hok & Hadj & Hcur) Hm.
  destruct (matching_key _ Hm)
    as (parse & tbv & y & m & d & P & Len & Tb & D & Y & Mo & Da & Ly & Lm & Ld).
  assert (KD : keyDate item = Some (y ++ m ++ d)%string)
    by (unfold keyDate, keyGroup; rewrite P; exact D).
  assert (KY : keyGroup YEARIX item = Some y)
    by (unfold keyGroup; rewrite P; exact Y).
  assert (KM : keyGroup MONTHIX item = Some m)
    by (unfold keyGroup; rewrite P; exact Mo).
  assert (KDa : keyGroup DAYIX item = Some d)
    by (unfold keyGroup; rewrite P; exact Da).
  assert (KT : keyTb item = Some tbv)
    by (unfold keyTb, keyGroup; rewrite P; exact Tb).
  unfold partitionStep. rewrite P.
  apply Nat.leb_le in Len. rewrite Len.
  rewrite Tb, D, Y, Mo, Da.
  destruct (strictNe (currentDate st) (Some (y ++ m ++ d)%string)) eqn:Ne.
  - (* a new day *)
    cbn [dailyLogInfo listOfDailyLogInfo currentDate].
    eexists. split; [reflexivity | ].
    unfold PartInv. rewrite !pushCurrent_some.
    split; [ split; [ | split ] | ].
    + apply Forall_app. split; [exact Hok | ].
      constructor; [ | constructor ].
      constructor; cbn.
      * discriminate.
      * discriminate.
      * exists item, []. split; [reflexivity | symmetry; exact KT].
      * auto.
      * reflexivity.
      * intros k [<- | []]. rewrite KD, KY, KM, KDa. auto.
    + destruct (currentDate st) as [ | d0] eqn:Ec;
        destruct (dailyLogInfo st) as [g | ] eqn:Eg; try contradiction.
      * unfold pushCurrent. rewrite Eg, Hcur. simpl. exact I.
      * unfold pushCurrent in *. rewrite Eg in *.
        rewrite !map_app in *. cbn [map] in *.
        apply adjacentDistinct_snoc; [exact Hadj | ].
        cbn. intros E.
        simpl in Ne. rewrite Hcur, E in Ne.
        apply negb_true_iff in Ne.
        unfold option_string_eqb in Ne. rewrite String.eqb_refl in Ne.
        discriminate.
    + cbn. reflexivity.
    + rewrite concat_map_snoc. reflexivity.
  - (* the same day *)
    destruct (currentDate st) as [ | d0] eqn:Ec; [discriminate | ].
    destruct (dailyLogInfo st) as [g | ] eqn:Eg; [ | contradiction ].
    simpl in Ne. apply negb_false_iff, option_string_eqb_eq in Ne.
    subst d0.
    eexists. split; [reflexivity | ].
    unfold PartInv. rewrite !pushCurrent_some.
    unfold pushCurrent in *. rewrite Eg in *.
    apply Forall_app in Hok. destruct Hok as [Hold Hg].
    inversion Hg as [ | ? ? Gok _]; subst.
    split; [ split; [ | split ] | ].
    + apply Forall_app. split; [exact Hold | ].
      constructor; [ | constructor ].
      destruct Gok as [Gne Gd Gtb Gfr Gkey Gmem].
      constructor; rewrite ?groupDate_push;
        cbn [push_logKey logKeys tb log priorLog key year month day].
      * intros E. apply app_eq_nil in E. destruct E; discriminate.
      * exact Gd.
      * destruct Gtb as (k & rest & Hk & Ek). exists k, (rest ++ [item]).
        split; [rewrite Hk; reflexivity | exact Ek].
      * exact Gfr.
      * exact Gkey.
      * intros k Hk. apply in_app_or in Hk. destruct Hk as [Hk | [<- | []]].
        -- apply Gmem; exact Hk.
        -- destruct (logKeys g) as [ | k0 ks] eqn:Ek; [congruence | ].
           destruct (Gmem k0 (or_introl eq_refl))
             as (M0 & D0 & Y0 & Mo0 & Da0).
           assert (E : keyDate item = keyDate k0) by congruence.
           destruct (same_date_same_parts _ _ Hm M0 E) as (EY & EM & ED).
           repeat split; congruence.
    + rewrite !map_app in *. exact Hadj.
    + cbn. reflexivity.
    + rewrite !concat_map_snoc. cbn. rewrite app_assoc. reflexivity.
Qed.

Lemma partitionLoop_spec keys :
  forall st,
    PartInv st ->
    exists st',
      partitionLoop st keys = Resolved st' /\
      PartInv st' /\
      concat (map logKeys (pushCurrent st')) =
      concat (map logKeys (pushCurrent st)) ++ filter matchesName keys.
Proof.
  induction keys as [ | item rest IH]; intros st Hinv; simpl.
  - exists st. rewrite app_nil_r. auto.
  - destruct (matchesName item) eqn:Hm.
    + destruct (partitionStep_match _ _ Hinv Hm) as (st1 & -> & Hinv1 & E1).
      destruct (IH st1 Hinv1) as (st' & -> & Hinv' & E').
      exists st'. rewrite E', E1, <- app_assoc. auto.
    + rewrite (partitionStep_nomatch st _ Hm). apply IH, Hinv.
Qed.

Lemma PartInv_init : PartInv (mkPartState [] None MinusOne).
Proof. repeat split; constructor. Qed.

(** [partitionByDays] never throws; its groups are well formed, no two
    neighbours have the same date, and their members, in order, are the
    keys of the input that match the pattern. *)
Lemma partitionByDays_spec keys :
  exists groups,
    partitionByDays keys = Resolved groups /\
    Forall GroupOk groups /\
    adjacentDistinct (map groupDate groups) /\
    concat (map logKeys groups) = filter matchesName keys.
Proof.
  unfold partitionByDays.
  destruct (partitionLoop_spec keys _ PartInv_init)
    as (st & -> & (Hok & Hadj & _) & E).
  exists (pushCurrent st). auto.
Qed.

Lemma contiguous_tail {A} (l1 l2 : list A) :
  contiguous (l1 ++ l2) -> contiguous l2.
Proof.
  intros H p x q r z E Hz.
  apply (H (l1 ++ p) x q r z); [ | exact Hz ].
  rewrite E, <- app_assoc. reflexivity.
Qed.

Lemma dropWhileEq_keeps x z l2 l3 :
  In z l2 -> z <> x -> In x (dropWhileEq x (l2 ++ x :: l3)).
Proof.
  induction l2 as [ | y l2 IH]; intros Hz Hne; [destruct Hz | ].
  simpl. destruct (option_string_eqb x y) eqn:E.
  - apply option_string_eqb_eq in E. subst y.
    destruct Hz as [-> | Hz]; [congruence | ]. apply IH; assumption.
  - right. apply in_or_app. right. left. reflexivity.
Qed.

Lemma contiguousb_sound l : contiguousb l = true -> contiguous l.
Proof.
  induction l as [ | x0 l IH]; intros H p x q r z E Hz.
  - destruct p; discriminate.
  - simpl in H. apply andb_true_iff in H. destruct H as [H1 H2].
    destruct p as [ | a p]; simpl in E; injection E as -> E.
    + destruct (option_string_eqb z x) eqn:Ez.
      * apply option_string_eqb_eq. exact Ez.
      * exfalso. apply negb_true_iff in H1.
        assert (Hx : In x (dropWhileEq x l)).
        { rewrite E. apply dropWhileEq_keeps with (z := z); [exact Hz | ].
          intros ->. rewrite (proj2 (option_string_eqb_eq x x) eq_refl) in Ez.
          discriminate. }
        assert (Ex : existsb (option_string_eqb x) (dropWhileEq x l) = true).
        { apply existsb_exists. exists x. split; [exact Hx | ].
          apply option_string_eqb_eq. reflexivity. }
        congruence.
    + apply (IH H2 p x q r z E Hz).
Qed.

(** The dates of the members of well-formed groups. *)
Lemma member_dates g :
  GroupOk g ->
  exists tl, map keyDate (logKeys g) = groupDate g :: tl.
Proof.
  intros [Gne _ _ _ _ Gmem].
  destruct (logKeys g) as [ | k ks]; [congruence | ].
  exists (map keyDate ks). simpl. f_equal.
  apply (Gmem k). left. reflexivity.
Qed.

Lemma group_date_among rest x :
  Forall GroupOk rest -> In x (map groupDate rest) ->
  In x (concat (map (fun g => map keyDate (logKeys g)) rest)).
Proof.
  intros Hok Hin. apply in_map_iff in Hin. destruct Hin as (g & <- & Hg).
  apply in_concat. exists (map keyDate (logKeys g)). split.
  - apply in_map_iff. exists g. auto.
  - rewrite Forall_forall in Hok.
    destruct (member_dates _ (Hok g Hg)) as (tl & ->). left. reflexivity.
Qed.

(** When equal dates are contiguous in the input, no two groups have the
    same date. *)
Lemma contiguous_groups_nodup groups :
  Forall GroupOk groups ->
  adjacentDistinct (map groupDate groups) ->
  contiguous (concat (map (fun g => map keyDate (logKeys g)) groups)) ->
  NoDup (map groupDate groups).
Proof.
  induction groups as [ | g rest IH]; intros Hok Hadj Hc; simpl.
  - constructor.
  - inversion Hok as [ | ? ? Hg Hrest]; subst.
    simpl in Hc. constructor.
    + intros Hin.
      destruct rest as [ | g1 rest1]; [destruct Hin | ].
      simpl in Hadj. destruct Hadj as [Hne Hadj].
      destruct Hin as [E | Hin]; [congruence | ].
      inversion Hrest as [ | ? ? Hg1 Hrest1]; subst.
      apply (group_date_among _ _ Hrest1) in Hin.
      apply in_split in Hin. destruct Hin as (p & q & Epq).
      destruct (member_dates _ Hg) as (tl & Eg).
      destruct (member_dates _ Hg1) as (tl1 & Eg1).
      simpl in Hc. rewrite Eg, Eg1, Epq in Hc.
      apply Hne. symmetry.
      apply (Hc [] (groupDate g) (tl ++ groupDate g1 :: tl1 ++ p) q).
      * simpl. f_equal. rewrite <- !app_assoc. simpl.
        rewrite <- !app_assoc. reflexivity.
      * apply in_or_app. right. left. reflexivity.
    + apply IH; [exact Hrest | | exact (contiguous_tail _ _ Hc)].
      simpl in Hadj. destruct (map groupDate rest) eqn:E; [exact I | ].
      apply Hadj.
Qed.

(** C1, first half: a key that fails the pattern is in no group. *)
Lemma unmatched_in_no_group keys groups k :
  partitionByDays keys = Resolved groups ->
  matchesName k = false ->
  forall g, In g groups -> ~ In k (logKeys g).
Proof.
  intros E Hk g Hg Hin.
  destruct (partitionByDays_spec keys) as (gs & E' & _ & _ & Hcat).
  rewrite E in E'. injection E' as <-.
  assert (H : In k (filter matchesName keys)).
  { rewrite <- Hcat. apply in_concat. exists (logKeys g). split; [ | exact Hin ].
    apply in_map. exact Hg. }
  apply filter_In in H. destruct H as [_ H]. congruence.
Qed.

(** When keys of the same derived date are contiguous among the keys that
    match, [partitionByDays] returns one group per run of same-date keys:
    the members of the groups, in order, are exactly the matching keys;
    every group is non-empty and all its members carry its date; no two
    groups share a date; every matching key is a member of exactly one
    group.  The loader of a group is that of its first member. *)
Lemma partitionByDays_by_date (keys : list string) :
  contiguous (map keyDate (filter matchesName keys)) ->
  exists groups,
    partitionByDays keys = Resolved groups /\
    concat (map logKeys groups) = filter matchesName keys /\
    Forall GroupOk groups /\
    NoDup (map groupDate groups) /\
    (forall k, In k keys -> matchesName k = true ->
       exists i, i < length groups /\
                 In k (logKeys (nth i groups noGroup)) /\
                 forall j, j < length groups ->
                           In k (logKeys (nth j groups noGroup)) -> j = i) /\
    (forall g k, In g groups -> In k (logKeys g) ->
                 keyDate k = groupDate g) /\
    (forall s,
        (forall k, In k keys -> matchesName k = true -> keyTb k = Some s) ->
        partitionsBySourceAndDate groups /\
        forall g, In g groups -> tb g = Some s) /\
    (keys = [] -> groups = []).
Proof.
  intros Hc.
  destruct (partitionByDays_spec keys) as (groups & E & Hok & Hadj & Hcat).
  exists groups.
  assert (Hdate : forall g k, In g groups -> In k (logKeys g) ->
                              keyDate k = groupDate g).
  { intros g k Hg Hk. rewrite Forall_forall in Hok.
    apply (ok_members _ (Hok g Hg) k Hk). }
  assert (Hnd : NoDup (map groupDate groups)).
  { apply contiguous_groups_nodup; [exact Hok | exact Hadj | ].
    rewrite <- Hcat, concat_map, map_map in Hc. exact Hc. }
  assert (Hmem : forall g k, In g groups -> In k (logKeys g) ->
                             In k keys /\ matchesName k = true).
  { intros g k Hg Hk. apply filter_In. rewrite <- Hcat.
    apply in_concat. exists (logKeys g). split; [ | exact Hk ].
    apply in_map. exact Hg. }
  split; [exact E | ]. split; [exact Hcat | ]. split; [exact Hok | ].
  split; [exact Hnd | ]. split; [ | split; [exact Hdate | split] ].
  - (* exactly one group *)
    intros k Hk Hm.
    assert (H : In k (concat (map logKeys groups)))
      by (rewrite Hcat; apply filter_In; auto).
    apply in_concat in H. destruct H as (l & Hl & Hkl).
    apply in_map_iff in Hl. destruct Hl as (g & <- & Hg).
    destruct (In_nth _ _ noGroup Hg) as (i & Hi & Ei).
    exists i. split; [exact Hi | ]. split; [rewrite Ei; exact Hkl | ].
    intros j Hj Hkj.
    apply (proj1 (NoDup_nth (map groupDate groups) None) Hnd);
      rewrite ?length_map; try assumption.
    change None with (groupDate noGroup). rewrite !map_nth.
    rewrite <- (Hdate _ k (nth_In _ _ Hj) Hkj).
    rewrite Ei. apply Hdate; assumption.
  - (* one loader: the loader of every member is that of its group *)
    intros s Hs.
    assert (Htb : forall g, In g groups -> tb g = Some s).
    { intros g Hg. rewrite Forall_forall in Hok.
      destruct (ok_tb _ (Hok g Hg)) as (k0 & rest & Hk0 & ->).
      destruct (Hmem g k0 Hg) as [Hin Hm0];
        [rewrite Hk0; left; reflexivity | auto]. }
    split; [ | exact Htb ].
    intros g k Hg Hk. rewrite (Htb g Hg).
    destruct (Hmem g k Hg Hk). auto.
  - intros ->. simpl in E. injection E as <-. reflexivity.
Qed.


(** ** The sequential runner *)

Section Walk.
Context {W A B : Type} (fn : A -> M W B).

Lemma processOne_acc (items : list A) :
  forall (acc : list B) (w : W),
    processOne fn items acc w =
    match processOne fn items [] w with
    | (Resolved rs, w', t) => (Resolved (acc ++ rs), w', t)
    | (Rejected e, w', t) => (Rejected e, w', t)
    end.
Proof.
  induction items as [ | item rest IH]; intros acc w; simpl.
  - unfold resolve. rewrite app_nil_r. reflexivity.
  - unfold then_. destruct (fn item w) as [[[b | e] w1] t1]; [ | reflexivity ].
    rewrite (IH (acc ++ [b])), (IH ([] ++ [b])).
    destruct (processOne fn rest [] w1) as [[[rs | e] w2] t2];
      [ | reflexivity ].
    rewrite <- app_assoc. reflexivity.
Qed.

(** The walk, unit by unit. *)
Lemma walk_cons (item : A) (rest : list A) (w : W) :
  walkListWithPromises (item :: rest) fn w =
  match fn item w with
  | (Resolved b, w1, t1) =>
      match walkListWithPromises rest fn w1 with
      | (Resolved bs, w2, t2) => (Resolved (b :: bs), w2, t1 ++ t2)
      | (Rejected e, w2, t2) => (Rejected e, w2, t1 ++ t2)
      end
  | (Rejected e, w1, t1) => (Rejected e, w1, t1)
  end.
Proof.
  unfold walkListWithPromises. simpl. unfold then_.
  destruct (fn item w) as [[[b | e] w1] t1]; [ | reflexivity ].
  rewrite processOne_acc.
  destruct (processOne fn rest [] w1) as [[[rs | e] w2] t2]; reflexivity.
Qed.

Lemma walk_nil (w : W) :
  walkListWithPromises [] fn w = (Resolved [], w, []).
Proof. reflexivity. Qed.

Lemma walk_resolved_iff (items : list A) :
  forall w bs w' t,
    walkListWithPromises items fn w = (Resolved bs, w', t) <->
    Steps fn w items bs w' t.
Proof.
  induction items as [ | item rest IH]; intros w bs w' t.
  - rewrite walk_nil. split.
    + intros [= <- <- <-]. constructor.
    + intros H. inversion H; subst. reflexivity.
  - rewrite walk_cons. split.
    + destruct (fn item w) as [[[b | e] w1] t1] eqn:E; [ | discriminate ].
      destruct (walkListWithPromises rest fn w1) as [[[rs | e] w2] t2] eqn:E2;
        [ | discriminate ].
      intros [= <- <- <-]. econstructor; [exact E | ]. apply IH, E2.
    + intros H. inversion H as [ | ? ? b w1 t1 ? rs w2 t2 E S]; subst.
      rewrite E. apply IH in S. rewrite S. reflexivity.
Qed.

Lemma walk_rejected_iff (items : list A) :
  forall w e w' t,
    walkListWithPromises items fn w = (Rejected e, w', t) <->
    FailsAt fn w items e w' t.
Proof.
  induction items as [ | item rest IH]; intros w e w' t.
  - rewrite walk_nil. split; [discriminate | ].
    intros (dn & x & r & _ & _ & _ & _ & E & _). destruct dn; discriminate.
  - rewrite walk_cons. split.
    + destruct (fn item w) as [[[b | e1] w1] t1] eqn:E.
      * destruct (walkListWithPromises rest fn w1)
          as [[[rs | e2] w2] t2] eqn:E2; [discriminate | ].
        intros [= <- <- <-]. apply IH in E2.
        destruct E2 as (dn & x & r & bs & w3 & t3 & t4 & -> & S & F & ->).
        exists (item :: dn), x, r, (b :: bs), w3, (t1 ++ t3), t4.
        repeat split; try assumption.
        -- econstructor; eassumption.
        -- rewrite app_assoc. reflexivity.
      * intros [= <- <- <-].
        exists [], item, rest, [], w, [], t1.
        repeat split; [constructor | exact E].
    + intros (dn & x & r & bs & w3 & t3 & t4 & E & S & F & ->).
      destruct dn as [ | y dn]; simpl in E; injection E as <- E.
      * subst rest. inversion S; subst. rewrite F. reflexivity.
      * inversion S as [ | ? ? b w1 t1 ? rs w2 t2 Ey S']; subst.
        rewrite Ey.
        assert (R : walkListWithPromises (dn ++ x :: r) fn w1
                    = (Rejected e, w', t2 ++ t4)).
        { apply IH. exists dn, x, r, rs, w3, t2, t4. auto. }
        rewrite R, app_assoc. reflexivity.
Qed.

Lemma Steps_length (items : list A) w bs w' t :
  Steps fn w items bs w' t -> length bs = length items.
Proof. induction 1; simpl; congruence. Qed.

Lemma Steps_app (l1 l2 : list A) :
  forall w bs1 w1 t1 bs2 w2 t2,
    Steps fn w l1 bs1 w1 t1 -> Steps fn w1 l2 bs2 w2 t2 ->
    Steps fn w (l1 ++ l2) (bs1 ++ bs2) w2 (t1 ++ t2).
Proof.
  induction l1 as [ | x l1 IH]; intros w bs1 w1 t1 bs2 w2 t2 S1 S2.
  - inversion S1; subst. exact S2.
  - inversion S1 as [ | ? ? b wa ta ? rs wb tb E S]; subst.
    simpl. rewrite <- app_assoc. econstructor; [exact E | ].
    eapply IH; eassumption.
Qed.

End Walk.

(** C8.  [walkListWithPromises] runs the units one at a time, in list
    order, each from the store state left by the one before: it resolves
    exactly when all units resolve, with their results in order.  It
    rejects exactly when some unit rejects after the units before it have
    resolved: the error is that unit's error, and the state and the trace
    are those reached at that point, so that what the completed units did
    is kept and no later unit is started, whatever the rest of the list. *)
Theorem C8_walk_fail_fast {W A B : Type} (fn : A -> M W B)
        (items : list A) (w : W) :
  (forall bs w' t,
      walkListWithPromises items fn w = (Resolved bs, w', t) <->
      Steps fn w items bs w' t) /\
  (forall e w' t,
      walkListWithPromises items fn w = (Rejected e, w', t) <->
      FailsAt fn w items e w' t) /\
  (forall done item bs w1 t1 e w2 t2,
      Steps fn w done bs w1 t1 ->
      fn item w1 = (Rejected e, w2, t2) ->
      forall rest,
        walkListWithPromises (done ++ item :: rest) fn w
        = (Rejected e, w2, t1 ++ t2)).
Proof.
  split; [ | split ].
  - intros. apply walk_resolved_iff.
  - intros. apply walk_rejected_iff.
  - intros dn item bs w1 t1 e w2 t2 S F rest.
    apply walk_rejected_iff.
    exists dn, item, rest, bs, w1, t1, t2. auto.
Qed.

(** ** Requests and traces *)

Section Traces.
Context {W : Type}.

Lemma Emits_resolve {A} (P : Event -> Prop) (a : A) :
  Emits P (resolve (W := W) a).
Proof. intros w. constructor. Qed.

Lemma Emits_reject {A} (P : Event -> Prop) (e : Error) :
  Emits P (reject (W := W) (A := A) e).
Proof. intros w. constructor. Qed.

Lemma Emits_settle {A} (P : Event -> Prop) (r : Result A) :
  Emits P (settle (W := W) r).
Proof. intros w. constructor. Qed.

Lemma Emits_send {A} (P : Event -> Prop) rq (op : W -> Result A * W) :
  (forall o, P (mkEvent rq o)) -> Emits P (send rq op).
Proof.
  intros H w. unfold send. destruct (op w) as [r w1]. simpl.
  constructor; [apply H | constructor].
Qed.

Lemma Emits_then {A B} (P : Event -> Prop) (p : M W A) (f : A -> M W B) :
  Emits P p -> (forall a, Emits P (f a)) -> Emits P (then_ p f).
Proof.
  intros Hp Hf w. unfold then_. specialize (Hp w).
  destruct (p w) as [[[a | e] w1] t1]; simpl in *; [ | exact Hp ].
  specialize (Hf a w1). destruct (f a w1) as [[r w2] t2]. simpl in *.
  apply Forall_app. auto.
Qed.

Lemma Emits_catch {A} (P : Event -> Prop) (p : M W A) h :
  Emits P p -> (forall e, Emits P (h e)) -> Emits P (catch_ p h).
Proof.
  intros Hp Hh w. unfold catch_. specialize (Hp w).
  destruct (p w) as [[[a | e] w1] t1]; simpl in *; [exact Hp | ].
  specialize (Hh e w1). destruct (h e w1) as [[r w2] t2]. simpl in *.
  apply Forall_app. auto.
Qed.

Lemma Emits_walk {A B} (P : Event -> Prop) (fn : A -> M W B) items :
  (forall a, Emits P (fn a)) -> Emits P (walkListWithPromises items fn).
Proof.
  intros Hf. induction items as [ | item rest IH]; intros w.
  - constructor.
  - rewrite walk_cons. specialize (Hf item w).
    destruct (fn item w) as [[[b | e] w1] t1]; simpl in *; [ | exact Hf ].
    specialize (IH w1).
    destruct (walkListWithPromises rest fn w1) as [[[bs | e] w2] t2];
      simpl in *; apply Forall_app; auto.
Qed.

Lemma RejectsLast_resolve {A} (a : A) : RejectsLast (resolve (W := W) a).
Proof. intros w e H. discriminate. Qed.

Lemma RejectsLast_send {A} rq (op : W -> Result A * W) :
  RejectsLast (send rq op).
Proof.
  intros w e. unfold send, outcome, trace.
  destruct (op w) as [[a | e'] w1]; simpl; [discriminate | ].
  intros [= ->]. exists [], rq. reflexivity.
Qed.

Lemma RejectsLast_then {A B} (p : M W A) (f : A -> M W B) :
  RejectsLast p -> (forall a, RejectsLast (f a)) -> RejectsLast (then_ p f).
Proof.
  intros Hp Hf w e. unfold then_, outcome, trace.
  specialize (Hp w). unfold outcome, trace in Hp.
  destruct (p w) as [[[a | e'] w1] t1]; simpl in *.
  - specialize (Hf a w1). unfold outcome, trace in Hf.
    destruct (f a w1) as [[r w2] t2]. simpl in *.
    intros H. destruct (Hf e H) as (t0 & rq & ->).
    exists (t1 ++ t0), rq. rewrite app_assoc. reflexivity.
  - intros [= ->]. exact (Hp e eq_refl).
Qed.

Lemma RejectsLast_walk {A B} (fn : A -> M W B) items :
  (forall a, RejectsLast (fn a)) ->
  RejectsLast (walkListWithPromises items fn).
Proof.
  intros Hf. induction items as [ | item rest IH]; intros w e.
  - discriminate.
  - rewrite walk_cons. specialize (Hf item w).
    unfold outcome, trace in *.
    destruct (fn item w) as [[[b | e'] w1] t1]; simpl in *;
      [ | intros [= ->]; exact (Hf e eq_refl) ].
    specialize (IH w1).
    destruct (walkListWithPromises rest fn w1) as [[[bs | e'] w2] t2];
      simpl in *; [discriminate | ].
    intros H. destruct (IH e H) as (t0 & rq & ->).
    exists (t1 ++ t0), rq. rewrite app_assoc. reflexivity.
Qed.

End Traces.

(** ** Reading, merging and writing one day *)

Section Merge.
Context {W : Type} (s3 : S3 W).

(** [readFile] issues one request and resolves whenever it succeeds. *)
Lemma readFile_run (key : string) (w : W) :
  readFile s3 key w =
  match getObject s3 key w with
  | (Resolved body, w1) =>
      (Resolved (decodeBody key body), w1, [mkEvent (GetObject key) None])
  | (Rejected e, w1) =>
      (Rejected e, w1, [mkEvent (GetObject key) (Some e)])
  end.
Proof.
  unfold readFile, then_, send, resolve.
  destruct (getObject s3 key w) as [[body | e] w1]; reflexivity.
Qed.

Lemma fetch_run (key : string) (w : W) :
  fetch s3 key w =
  match getObject s3 key w with
  | (Resolved body, w1) =>
      (Resolved body, w1, [mkEvent (GetObject key) None])
  | (Rejected e, w1) =>
      (Rejected e, w1, [mkEvent (GetObject key) (Some e)])
  end.
Proof.
  unfold fetch, send.
  destruct (getObject s3 key w) as [[body | e] w1]; reflexivity.
Qed.

Lemma readFile_steps (keys : list string) :
  forall w texts w' t,
    Steps (readFile s3) w keys texts w' t <->
    exists bodies,
      Steps (fetch s3) w keys bodies w' t /\
      texts = decodeAll keys bodies.
Proof.
  induction keys as [ | k ks IH]; intros w texts w' t; split.
  - intros H. inversion H; subst. exists []. split; [constructor | reflexivity].
  - intros (bodies & H & ->). inversion H; subst. constructor.
  - intros H. inversion H as [ | ? ? b w1 t1 ? bs w2 t2 E S]; subst.
    apply IH in S. destruct S as (bodies & S & ->).
    rewrite readFile_run in E.
    destruct (getObject s3 k w) as [[body | e] w3] eqn:G; [ | discriminate ].
    injection E as <- <- <-.
    exists (body :: bodies). split; [ | reflexivity ].
    econstructor; [ | exact S ]. rewrite fetch_run, G. reflexivity.
  - intros (bodies & H & ->).
    inversion H as [ | ? ? b w1 t1 ? bs w2 t2 E S]; subst.
    rewrite fetch_run in E.
    destruct (getObject s3 k w) as [[body | e] w3] eqn:G; [ | discriminate ].
    injection E as <- <- <-.
    change (decodeAll (k :: ks) (body :: bs))
      with (decodeBody k body :: decodeAll ks bs).
    econstructor.
    + rewrite readFile_run, G. reflexivity.
    + apply IH. exists bs. auto.
Qed.

(** Only successful fetches are in the trace of keys that were all
    read. *)
Lemma readFile_steps_trace (keys : list string) w texts w' t :
  Steps (readFile s3) w keys texts w' t ->
  Forall (fun ev => isGet ev = true /\ failure ev = None) t.
Proof.
  induction 1 as [ | w k b w1 t1 rest bs w2 t2 E S IH]; [constructor | ].
  apply Forall_app. split; [ | exact IH ].
  rewrite readFile_run in E.
  destruct (getObject s3 k w) as [[body | e] w3]; [ | discriminate ].
  injection E as <- <- <-. constructor; [split; reflexivity | constructor].
Qed.

Lemma readLogsForDay_run (g : DailyLogInfo) (w : W) :
  readLogsForDay s3 g w =
  match walkListWithPromises (logKeys g) (readFile s3) w with
  | (Resolved texts, w1, t1) =>
      (Resolved (set_log (Js.join texts) g), w1, t1)
  | (Rejected e, w1, t1) => (Rejected e, w1, t1)
  end.
Proof.
  unfold readLogsForDay, then_, resolve.
  destruct (walkListWithPromises (logKeys g) (readFile s3) w)
    as [[[texts | e] w1] t1]; [ | reflexivity ].
  rewrite app_nil_r. reflexivity.
Qed.

Lemma readLogsForDay_resolved (g : DailyLogInfo) (w : W) texts w' t :
  Steps (readFile s3) w (logKeys g) texts w' t ->
  readLogsForDay s3 g w = (Resolved (set_log (Js.join texts) g), w', t).
Proof.
  intros S. rewrite readLogsForDay_run.
  apply walk_resolved_iff in S. rewrite S. reflexivity.
Qed.

Lemma readPriorConsolidation_run (g : DailyLogInfo) (w : W) :
  readPriorConsolidation s3 g w =
  match getObject s3 (key g) w with
  | (Resolved body, w1) =>
      (Resolved (set_priorLog (decodeBody (key g) body) g), w1,
       [mkEvent (GetObject (key g)) None])
  | (Rejected e, w1) =>
      if option_string_eqb (code e) (Some "NoSuchKey")
      then (Resolved (set_priorLog EmptyString g), w1,
            [mkEvent (GetObject (key g)) (Some e)])
      else (Rejected e, w1, [mkEvent (GetObject (key g)) (Some e)])
  end.
Proof.
  unfold readPriorConsolidation, catch_, then_. rewrite readFile_run.
  destruct (getObject s3 (key g) w) as [[body | e] w1]; [reflexivity | ].
  destruct (option_string_eqb (code e) (Some "NoSuchKey")); reflexivity.
Qed.

Lemma writeConsolidatedLog_run (g : DailyLogInfo) (w : W) :
  writeConsolidatedLog s3 g w =
  let body := (orEmpty (priorLog g) ++ toStr (log g))%string in
  match putObject s3 (key g) body w with
  | (Resolved _, w1) =>
      (Resolved g, w1, [mkEvent (PutObject (key g) body) None])
  | (Rejected e, w1) =>
      (Rejected e, w1, [mkEvent (PutObject (key g) body) (Some e)])
  end.
Proof.
  unfold writeConsolidatedLog, then_, send, resolve. cbv zeta.
  destruct (putObject s3 (key g) _ w) as [[u | e] w1]; reflexivity.
Qed.

(** The whole merge of one day, once the members are read. *)
Lemma consolidateDailyLog_run (g : DailyLogInfo) (w : W) texts w1 t1 :
  Steps (readFile s3) w (logKeys g) texts w1 t1 ->
  consolidateDailyLog s3 g w =
  match priorRead s3 g w1 with
  | Some (prior, w2, o) =>
      let body := (prior ++ Js.join texts)%string in
      match putObject s3 (key g) body w2 with
      | (Resolved _, w3) =>
          (Resolved (set_priorLog prior (set_log (Js.join texts) g)), w3,
           t1 ++ [mkEvent (GetObject (key g)) o;
                  mkEvent (PutObject (key g) body) None])
      | (Rejected e, w3) =>
          (Rejected e, w3,
           t1 ++ [mkEvent (GetObject (key g)) o;
                  mkEvent (PutObject (key g) body) (Some e)])
      end
  | None =>
      match getObject s3 (key g) w1 with
      | (Rejected e, w2) =>
          (Rejected e, w2, t1 ++ [mkEvent (GetObject (key g)) (Some e)])
      | (Resolved _, w2) => consolidateDailyLog s3 g w
      end
  end.
Proof.
  intros S. unfold consolidateDailyLog at 1.
  unfold then_ at 1 2. rewrite (readLogsForDay_resolved _ _ _ _ _ S).
  rewrite readPriorConsolidation_run. unfold priorRead.
  change (key (set_log (Js.join texts) g)) with (key g).
  destruct (getObject s3 (key g) w1) as [[body | e] w2].
  - rewrite writeConsolidatedLog_run. cbn.
    destruct (putObject s3 (key g) _ w2) as [[u | e] w3];
      rewrite <- app_assoc; reflexivity.
  - destruct (option_string_eqb (code e) (Some "NoSuchKey")).
    + rewrite writeConsolidatedLog_run. cbn.
      destruct (putObject s3 (key g) _ w2) as [[u | e'] w3];
        rewrite <- app_assoc; reflexivity.
    + reflexivity.
Qed.

(** A merge that resolves has read every member, then the prior
    consolidation, and has written prior content followed by the new
    content. *)
Lemma consolidateDailyLog_resolved (g : DailyLogInfo) (w : W) g' w' t :
  consolidateDailyLog s3 g w = (Resolved g', w', t) ->
  exists texts w1 t1 prior w2 o,
    Steps (readFile s3) w (logKeys g) texts w1 t1 /\
    priorRead s3 g w1 = Some (prior, w2, o) /\
    putObject s3 (key g) (prior ++ Js.join texts)%string w2
    = (Resolved tt, w') /\
    t = t1 ++ [mkEvent (GetObject (key g)) o;
               mkEvent (PutObject (key g) (prior ++ Js.join texts)%string)
                       None] /\
    g' = set_priorLog prior (set_log (Js.join texts) g).
Proof.
  intros H.
  destruct (walkListWithPromises (logKeys g) (readFile s3) w)
    as [[[texts | e] w1] t1] eqn:Wk.
  - apply walk_resolved_iff in Wk.
    rewrite (consolidateDailyLog_run _ _ _ _ _ Wk) in H.
    destruct (priorRead s3 g w1) as [[[prior w2] o] | ] eqn:P.
    + cbv zeta in H.
      destruct (putObject s3 (key g) _ w2) as [[[] | e] w3] eqn:Pt;
        [ | discriminate ].
      injection H as <- <- <-.
      exists texts, w1, t1, prior, w2, o. auto.
    + unfold priorRead in P.
      destruct (getObject s3 (key g) w1) as [[body | e] w2];
        [discriminate | discriminate].
  - unfold consolidateDailyLog, then_ in H.
    rewrite readLogsForDay_run, Wk in H. discriminate.
Qed.

End Merge.

(** ** Texts *)

Lemma lastChar_snoc (s : string) (c : ascii) :
  Js.lastChar (s ++ String c EmptyString)%string = Some c.
Proof.
  induction s as [ | a s IH]; [reflexivity | ].
  simpl. rewrite IH. destruct (s ++ String c EmptyString)%string eqn:E.
  - destruct s; discriminate.
  - reflexivity.
Qed.

Lemma lastChar_none (s : string) : Js.lastChar s = None -> s = EmptyString.
Proof.
  induction s as [ | a s IH]; [reflexivity | ].
  simpl. destruct s; [discriminate | ]. intros H. apply IH in H. discriminate.
Qed.

Lemma terminate_spec (s : string) :
  (s = EmptyString -> terminate s = EmptyString) /\
  (s <> EmptyString -> endsWithNewline (terminate s) = true) /\
  (endsWithNewline s = true -> terminate s = s) /\
  (s <> EmptyString -> endsWithNewline s = false ->
   terminate s = (s ++ NL)%string).
Proof.
  unfold terminate, lacksNewline, endsWithNewline, NL.
  destruct (Js.lastChar s) as [c | ] eqn:L.
  - assert (Hs : s <> EmptyString) by (intros ->; discriminate).
    destruct (Ascii.eqb c NEWLINE) eqn:E; simpl.
    + split; [congruence | ]. split; [ | split; [reflexivity | discriminate] ].
      intros _. rewrite L. exact E.
    + split; [congruence | ]. split; [ | split; [discriminate | reflexivity] ].
      intros _. rewrite lastChar_snoc. apply Ascii.eqb_refl.
  - apply lastChar_none in L. subst s. simpl.
    split; [reflexivity | ]. split; [congruence | ].
    split; [discriminate | congruence].
Qed.

Lemma mask_sevenBit (c : ascii) :
  (nat_of_ascii c <? 128) = true ->
  ascii_of_nat (Nat.land (nat_of_ascii c) 127) = c.
Proof.
  destruct c as [[] [] [] [] [] [] [] []]; vm_compute;
    intros H; try reflexivity; discriminate H.
Qed.

Lemma asciiSlice_sevenBit (s : string) :
  sevenBit s = true -> asciiSlice s = s.
Proof.
  induction s as [ | c s IH]; [reflexivity | ].
  simpl. intros H. apply andb_true_iff in H. destruct H as [Hc Hs].
  rewrite (mask_sevenBit _ Hc), (IH Hs). reflexivity.
Qed.

(** A text of seven-bit bytes that is empty or ends with a newline is read
    back as it is. *)
Lemma decodeBody_clean (key content : string) :
  sevenBit content = true ->
  content = EmptyString \/ endsWithNewline content = true ->
  decodeBody key (Buffer content) = content.
Proof.
  intros H7 Hc. unfold decodeBody. simpl. rewrite (asciiSlice_sevenBit _ H7).
  destruct Hc as [-> | Hc]; [reflexivity | ].
  apply (terminate_spec content). exact Hc.
Qed.

Lemma length_append (a b : string) :
  String.length (a ++ b)%string = String.length a + String.length b.
Proof. induction a; simpl; congruence. Qed.

Lemma append_assoc (a b c : string) :
  ((a ++ b) ++ c)%string = (a ++ (b ++ c))%string.
Proof. induction a; simpl; congruence. Qed.

Lemma append_not_alone (prior new : string) :
  prior <> EmptyString -> (prior ++ new)%string <> new.
Proof.
  intros Hp E. apply (f_equal String.length) in E.
  rewrite length_append in E. destruct prior; [congruence | simpl in E; lia].
Qed.

(** ** The claims about the merge of one day *)

(** The statement of C8 on three reads of which the second one fails: the
    third key is never requested. *)
Lemma C8_walk_fail_fast_witness :
  walkListWithPromises [key_0730_a; key_missing; key_0730_c]
                       (readFile MemStore.s3) store_two_fragments
  = (Rejected MemStore.NoSuchKey, store_two_fragments,
     [ mkEvent (GetObject key_0730_a) None;
       mkEvent (GetObject key_missing) (Some MemStore.NoSuchKey) ]).
Proof.
  refine (proj2 (proj2 (C8_walk_fail_fast (readFile MemStore.s3) []
                                          store_two_fragments))
                [key_0730_a] key_missing [("hello" ++ NL)%string]
                store_two_fragments
                [mkEvent (GetObject key_0730_a) None]
                MemStore.NoSuchKey store_two_fragments
                [mkEvent (GetObject key_missing) (Some MemStore.NoSuchKey)]
                _ _ [key_0730_c]).
  - apply walk_resolved_iff. reflexivity.
  - reflexivity.
Defined.

(** C5 (as amended).  When the fetches of all members of a group succeed,
    with contents [contents], [readLogsForDay] resolves with [log] the
    concatenation, in the order of [logKeys], of the contents decoded as
    ASCII, each with a newline appended when it is not empty and does not
    end with one.  An empty content stays empty; any other piece ends with
    a newline; a seven-bit content is kept byte for byte. *)
Theorem C5_order_preservation {W : Type} (s3 : S3 W) (g : DailyLogInfo)
        (w : W) (contents : list string) (w' : W) (t : list Event) :
  Steps (fetch s3) w (logKeys g) (map Buffer contents) w' t ->
  readLogsForDay s3 g w =
  (Resolved
     (set_log (Js.join (map (fun c => terminate (asciiSlice c)) contents)) g),
   w', t) /\
  forall c, In c contents ->
    (c = EmptyString -> terminate (asciiSlice c) = EmptyString) /\
    (c <> EmptyString -> endsWithNewline (terminate (asciiSlice c)) = true) /\
    (sevenBit c = true -> endsWithNewline c = true ->
     terminate (asciiSlice c) = c) /\
    (sevenBit c = true -> c <> EmptyString -> endsWithNewline c = false ->
     terminate (asciiSlice c) = (c ++ NL)%string).
Proof.
  intros S. split.
  - apply readLogsForDay_resolved. apply readFile_steps.
    exists (map Buffer contents). split; [exact S | ].
    apply Steps_length in S. rewrite length_map in S.
    unfold decodeAll. f_equal.
    generalize dependent (logKeys g). clear.
    induction contents as [ | c cs IH]; intros [ | k ks] L;
      try discriminate; [reflexivity | ].
    simpl. f_equal. apply IH. simpl in L. congruence.
  - intros c _. repeat split.
    + intros ->. reflexivity.
    + intros Hc. apply (terminate_spec (asciiSlice c)).
      destruct c; [congruence | discriminate].
    + intros H7 Hn. rewrite (asciiSlice_sevenBit _ H7).
      apply (terminate_spec c). exact Hn.
    + intros H7 Hc Hn. rewrite (asciiSlice_sevenBit _ H7).
      apply (terminate_spec c); assumption.
Qed.

(** The theorem on two fragments, ["hello"] and ["world\n"]. *)
Lemma C5_order_preservation_witness :
  exists g' w' t,
    readLogsForDay MemStore.s3 (group_0730 [key_0730_a; key_0730_c])
                   store_two_fragments = (Resolved g', w', t) /\
    log g' = Some ("hello" ++ NL ++ "world" ++ NL)%string.
Proof.
  eexists _, _, _. split.
  - refine (proj1 (C5_order_preservation
                     MemStore.s3 (group_0730 [key_0730_a; key_0730_c])
                     store_two_fragments
                     ["hello"; ("world" ++ NL)%string] _ _ _)).
    apply walk_resolved_iff. reflexivity.
  - reflexivity.
Defined.

(** C5 as stated fails: an empty fragment lacks a line terminator and none
    is appended, so the content is not the join of the fragments each made
    to end with a newline. *)
Lemma C5_counterexample :
  let g := group_0730 [key_0730_a; key_0730_c] in
  let contents := [EmptyString; ("world" ++ NL)%string] in
  (exists t, Steps (fetch MemStore.s3) store_empty_fragment (logKeys g)
                   (map Buffer contents) store_empty_fragment t) /\
  outcome (readLogsForDay MemStore.s3 g store_empty_fragment)
  = Resolved (set_log ("world" ++ NL) g) /\
  outcome (readLogsForDay MemStore.s3 g store_empty_fragment)
  <> Resolved (set_log (Js.join (map withTerminator contents)) g).
Proof.
  cbv zeta. split; [ | split ].
  - eexists. apply walk_resolved_iff. reflexivity.
  - reflexivity.
  - vm_compute. discriminate.
Qed.

(** C6 (as amended).  When the merge of a group resolves, the members were
    read (new content [N], the join of their texts), then the prior
    consolidation, and one write was made, of [P' ++ N], where [P'] is the
    prior content as the reader returns it: the text of the artifact, or
    the empty text when the read failed with [NoSuchKey].  The written
    content is never [N] alone unless [P'] is empty.

    Once the members are read, what the merge does is decided by the read
    of the artifact.  When the artifact is absent ([NoSuchKey]) no error is
    raised: the merge goes on to write [N], and it resolves, with the empty
    prior content, exactly when that write succeeds.  When the artifact is
    there the merge goes on to write its text followed by [N].  A failure
    of the read with another code rejects the merge with that error, before
    any write.  [P'] is the stored content itself when that is seven-bit
    and empty or ended by a newline. *)
Theorem C6_prior_content_first {W : Type} (s3 : S3 W) (g : DailyLogInfo)
        (w : W) :
  (forall g' w' t,
      consolidateDailyLog s3 g w = (Resolved g', w', t) ->
      exists texts w1 t1 prior w2 o,
        Steps (readFile s3) w (logKeys g) texts w1 t1 /\
        log g' = Some (Js.join texts) /\
        priorLog g' = Some prior /\
        ((exists body, getObject s3 (key g) w1 = (Resolved body, w2) /\
                       prior = decodeBody (key g) body /\ o = None) \/
         (exists e, getObject s3 (key g) w1 = (Rejected e, w2) /\
                    code e = Some "NoSuchKey" /\
                    prior = EmptyString /\ o = Some e)) /\
        putObject s3 (key g) (prior ++ Js.join texts)%string w2
        = (Resolved tt, w') /\
        t = t1 ++ [mkEvent (GetObject (key g)) o;
                   mkEvent (PutObject (key g)
                                      (prior ++ Js.join texts)%string) None] /\
        Forall (fun ev => isGet ev = true) t1 /\
        (prior <> EmptyString ->
         (prior ++ Js.join texts)%string <> Js.join texts)) /\
  (forall texts w1 t1 e w2,
      Steps (readFile s3) w (logKeys g) texts w1 t1 ->
      getObject s3 (key g) w1 = (Rejected e, w2) ->
      code e = Some "NoSuchKey" ->
      consolidateDailyLog s3 g w =
      match putObject s3 (key g) (Js.join texts) w2 with
      | (Resolved _, w3) =>
          (Resolved (set_priorLog EmptyString (set_log (Js.join texts) g)),
           w3,
           t1 ++ [mkEvent (GetObject (key g)) (Some e);
                  mkEvent (PutObject (key g) (Js.join texts)) None])
      | (Rejected e', w3) =>
          (Rejected e', w3,
           t1 ++ [mkEvent (GetObject (key g)) (Some e);
                  mkEvent (PutObject (key g) (Js.join texts)) (Some e')])
      end) /\
  (forall texts w1 t1 body w2,
      Steps (readFile s3) w (logKeys g) texts w1 t1 ->
      getObject s3 (key g) w1 = (Resolved body, w2) ->
      let prior := decodeBody (key g) body in
      let written := (prior ++ Js.join texts)%string in
      consolidateDailyLog s3 g w =
      match putObject s3 (key g) written w2 with
      | (Resolved _, w3) =>
          (Resolved (set_priorLog prior (set_log (Js.join texts) g)), w3,
           t1 ++ [mkEvent (GetObject (key g)) None;
                  mkEvent (PutObject (key g) written) None])
      | (Rejected e', w3) =>
          (Rejected e', w3,
           t1 ++ [mkEvent (GetObject (key g)) None;
                  mkEvent (PutObject (key g) written) (Some e')])
      end) /\
  (forall texts w1 t1 e w2,
      Steps (readFile s3) w (logKeys g) texts w1 t1 ->
      getObject s3 (key g) w1 = (Rejected e, w2) ->
      code e <> Some "NoSuchKey" ->
      consolidateDailyLog s3 g w
      = (Rejected e, w2, t1 ++ [mkEvent (GetObject (key g)) (Some e)])) /\
  (forall content,
      sevenBit content = true ->
      content = EmptyString \/ endsWithNewline content = true ->
      decodeBody (key g) (Buffer content) = content).
Proof.
  split; [ | split; [ | split; [ | split ] ] ].
  - intros g' w' t H.
    destruct (consolidateDailyLog_resolved _ _ _ _ _ _ H)
      as (texts & w1 & t1 & prior & w2 & o & S & P & Pt & -> & ->).
    exists texts, w1, t1, prior, w2, o.
    split; [exact S | ]. split; [reflexivity | ]. split; [reflexivity | ].
    split.
    { unfold priorRead in P.
      destruct (getObject s3 (key g) w1) as [[body | e] w3].
      - injection P as <- <- <-. left. exists body. auto.
      - destruct (option_string_eqb (code e) (Some "NoSuchKey")) eqn:C;
          [ | discriminate ].
        injection P as <- <- <-. right. exists e.
        apply option_string_eqb_eq in C. auto. }
    split; [exact Pt | ]. split; [reflexivity | ]. split.
    { eapply Forall_impl; [ | exact (readFile_steps_trace _ _ _ _ _ _ S) ].
      intros ev [Hev _]. exact Hev. }
    apply append_not_alone.
  - intros texts w1 t1 e w2 S G C.
    rewrite (consolidateDailyLog_run _ _ _ _ _ _ S). unfold priorRead.
    rewrite G, C. reflexivity.
  - intros texts w1 t1 body w2 S G. cbv zeta.
    rewrite (consolidateDailyLog_run _ _ _ _ _ _ S). unfold priorRead.
    rewrite G. reflexivity.
  - intros texts w1 t1 e w2 S G C.
    rewrite (consolidateDailyLog_run _ _ _ _ _ _ S). unfold priorRead.
    rewrite G.
    destruct (option_string_eqb (code e) (Some "NoSuchKey")) eqn:Eq;
      [ | reflexivity ].
    apply option_string_eqb_eq in Eq. contradiction.
  - intros content H7 Hc. apply decodeBody_clean; assumption.
Qed.

(** The theorem on a fragment ["hello"]: with no artifact in the store the
    merge resolves and writes ["hello\n"]; with an artifact
    ["previous\n"] it writes ["previous\nhello\n"]. *)
Lemma C6_prior_content_first_witness :
  (MemStore.lookup artifact_0730 (MemStore.objects store_stray) = None /\
   exists g' w',
     consolidateDailyLog MemStore.s3 (group_0730 [key_0730_a]) store_stray
     = (Resolved g', w',
        [mkEvent (GetObject key_0730_a) None;
         mkEvent (GetObject artifact_0730) (Some MemStore.NoSuchKey);
         mkEvent (PutObject artifact_0730 ("hello" ++ NL)%string) None]) /\
     priorLog g' = Some EmptyString /\
     MemStore.lookup artifact_0730 (MemStore.objects w')
     = Some (Buffer ("hello" ++ NL)%string)) /\
  (exists g' w',
     consolidateDailyLog MemStore.s3 (group_0730 [key_0730_a])
                         store_with_artifact
     = (Resolved g', w',
        [mkEvent (GetObject key_0730_a) None;
         mkEvent (GetObject artifact_0730) None;
         mkEvent (PutObject artifact_0730
                            ("previous" ++ NL ++ "hello" ++ NL)%string)
                 None]) /\
     priorLog g' = Some ("previous" ++ NL)%string).
Proof.
  split.
  - split; [reflexivity | ].
    eexists _, _. split.
    + exact (proj1 (proj2 (C6_prior_content_first
                             MemStore.s3 (group_0730 [key_0730_a])
                             store_stray))
                   [("hello" ++ NL)%string] store_stray
                   [mkEvent (GetObject key_0730_a) None]
                   MemStore.NoSuchKey store_stray
                   (proj1 (walk_resolved_iff
                             (readFile MemStore.s3) [key_0730_a] store_stray
                             [("hello" ++ NL)%string] store_stray
                             [mkEvent (GetObject key_0730_a) None])
                          eq_refl)
                   eq_refl eq_refl).
    + split; reflexivity.
  - eexists _, _. split.
    + exact (proj1 (proj2 (proj2 (C6_prior_content_first
                                    MemStore.s3 (group_0730 [key_0730_a])
                                    store_with_artifact)))
                   [("hello" ++ NL)%string] store_with_artifact
                   [mkEvent (GetObject key_0730_a) None]
                   (Buffer ("previous" ++ NL)%string) store_with_artifact
                   (proj1 (walk_resolved_iff
                             (readFile MemStore.s3) [key_0730_a]
                             store_with_artifact
                             [("hello" ++ NL)%string] store_with_artifact
                             [mkEvent (GetObject key_0730_a) None])
                          eq_refl)
                   eq_refl).
    + reflexivity.
Defined.

(** C6 as stated fails: the artifact holds ["previous"], the new content
    is ["hello\n"], and what is written is not their concatenation. *)
Lemma C6_counterexample :
  let g := group_0730 [key_0730_a] in
  let P := "previous" in
  let N := ("hello" ++ NL)%string in
  MemStore.lookup (key g) (MemStore.objects store_open_artifact)
  = Some (Buffer P) /\
  exists g' w' written,
    consolidateDailyLog MemStore.s3 g store_open_artifact
    = (Resolved g', w',
       [mkEvent (GetObject key_0730_a) None;
        mkEvent (GetObject (key g)) None;
        mkEvent (PutObject (key g) written) None]) /\
    log g' = Some N /\
    written = ("previous" ++ NL ++ "hello" ++ NL)%string /\
    written <> (P ++ N)%string.
Proof.
  cbv zeta. split; [reflexivity | ].
  eexists _, _, _. split; [reflexivity | ].
  split; [reflexivity | ]. split; [reflexivity | ].
  vm_compute. discriminate.
Qed.

Lemma decodeAll_app (ks1 : list string) :
  forall bs1 k b ks2 bs2,
    length ks1 = length bs1 ->
    decodeAll (ks1 ++ k :: ks2) (bs1 ++ b :: bs2)
    = decodeAll ks1 bs1 ++ decodeBody k b :: decodeAll ks2 bs2.
Proof.
  induction ks1 as [ | k1 ks1 IH]; intros [ | b1 bs1] k b ks2 bs2 L;
    try discriminate; [reflexivity | ].
  injection L as L. unfold decodeAll in *. simpl. f_equal.
  apply IH. exact L.
Qed.

Lemma append_empty_r (s : string) : (s ++ "")%string = s.
Proof. induction s; simpl; congruence. Qed.

(** [join('')] puts the texts one after the other. *)
Lemma join_concat (texts : list string) :
  Js.join texts = String.concat "" texts.
Proof.
  induction texts as [ | s texts IH]; [reflexivity | ].
  simpl. rewrite IH. destruct texts; [apply append_empty_r | reflexivity].
Qed.

Lemma concat_app (l1 l2 : list string) :
  String.concat "" (l1 ++ l2)
  = (String.concat "" l1 ++ String.concat "" l2)%string.
Proof.
  rewrite <- !join_concat.
  induction l1 as [ | s l1 IH]; [reflexivity | ].
  simpl. rewrite IH, append_assoc. reflexivity.
Qed.

(** C10.  A fetch that succeeds never makes [readFile] reject: it
    resolves with the decoded text, and when the conversion of the body
    throws [ex], with the line [Exception reading log (key): ex] ended by a
    newline.  That line takes the place of the text of the fragment among
    the texts of a group.  In a group whose fetches succeed and one of
    whose bodies throws, the members are read to the end; [log] is the
    texts before that member, then the line, then the texts after it; and
    the merge goes on to read the prior consolidation and to write the
    prior content followed by that [log]: it resolves when the write
    succeeds and is rejected only by the failure of the write. *)
Theorem C10_decoding_exception {W : Type} (s3 : S3 W) :
  (forall k w body w1,
      getObject s3 k w = (Resolved body, w1) ->
      readFile s3 k w
      = (Resolved (decodeBody k body), w1, [mkEvent (GetObject k) None])) /\
  (forall k ex,
      decodeBody k (Throwing ex)
      = ("Exception reading log (" ++ k ++ "): " ++ ex ++ NL)%string /\
      endsWithNewline (decodeBody k (Throwing ex)) = true) /\
  (forall ks1 bs1 k ks2 bs2 ex,
      length ks1 = length bs1 ->
      decodeAll (ks1 ++ k :: ks2) (bs1 ++ Throwing ex :: bs2)
      = decodeAll ks1 bs1
          ++ ("Exception reading log (" ++ k ++ "): " ++ ex ++ NL)%string
          :: decodeAll ks2 bs2) /\
  (forall g w bodies w' t,
      Steps (fetch s3) w (logKeys g) bodies w' t ->
      readLogsForDay s3 g w
      = (Resolved (set_log (Js.join (decodeAll (logKeys g) bodies)) g),
         w', t) /\
      forall prior w2 o,
        priorRead s3 g w' = Some (prior, w2, o) ->
        exists r w3,
          putObject s3 (key g)
                    (prior ++ Js.join (decodeAll (logKeys g) bodies))%string
                    w2 = (r, w3) /\
          trace (consolidateDailyLog s3 g w)
          = t ++ [mkEvent (GetObject (key g)) o;
                  mkEvent (PutObject (key g)
                             (prior ++ Js.join (decodeAll (logKeys g)
                                                          bodies))%string)
                          (errorOf r)]) /\
  (forall g w ks1 k ks2 bs1 ex bs2 w' t,
      logKeys g = ks1 ++ k :: ks2 ->
      length ks1 = length bs1 ->
      Steps (fetch s3) w (logKeys g) (bs1 ++ Throwing ex :: bs2) w' t ->
      let line := ("Exception reading log (" ++ k ++ "): " ++ ex ++ NL)%string
      in
      let new := (String.concat "" (decodeAll ks1 bs1) ++ line
                    ++ String.concat "" (decodeAll ks2 bs2))%string in
      readLogsForDay s3 g w = (Resolved (set_log new g), w', t) /\
      forall prior w2 o,
        priorRead s3 g w' = Some (prior, w2, o) ->
        consolidateDailyLog s3 g w =
        match putObject s3 (key g) (prior ++ new)%string w2 with
        | (Resolved _, w3) =>
            (Resolved (set_priorLog prior (set_log new g)), w3,
             t ++ [mkEvent (GetObject (key g)) o;
                   mkEvent (PutObject (key g) (prior ++ new)%string) None])
        | (Rejected e, w3) =>
            (Rejected e, w3,
             t ++ [mkEvent (GetObject (key g)) o;
                   mkEvent (PutObject (key g) (prior ++ new)%string)
                           (Some e)])
        end).
Proof.
  assert (Line : forall k ex,
             endsWithNewline (decodeBody k (Throwing ex)) = true).
  { intros k ex. unfold decodeBody, toString_ascii, endsWithNewline.
    rewrite <- !append_assoc.
    rewrite lastChar_snoc. apply Ascii.eqb_refl. }
  split; [ | split; [ | split; [ | split ] ] ].
  - intros k w body w1 G. rewrite readFile_run, G. reflexivity.
  - intros k ex. split; [reflexivity | apply Line].
  - intros ks1 bs1 k ks2 bs2 ex L. apply decodeAll_app. exact L.
  - intros g w bodies w' t S.
    assert (S' : Steps (readFile s3) w (logKeys g)
                       (decodeAll (logKeys g) bodies) w' t)
      by (apply readFile_steps; exists bodies; auto).
    split; [apply readLogsForDay_resolved; exact S' | ].
    intros prior w2 o P.
    rewrite (consolidateDailyLog_run _ _ _ _ _ _ S'), P. cbv zeta.
    destruct (putObject s3 (key g) _ w2) as [[u | e] w3] eqn:Pt;
      eexists _, _; (split; [reflexivity | reflexivity]).
  - intros g w ks1 k ks2 bs1 ex bs2 w' t Hk L S. cbv zeta.
    assert (S' : Steps (readFile s3) w (logKeys g)
                       (decodeAll (logKeys g) (bs1 ++ Throwing ex :: bs2))
                       w' t)
      by (apply readFile_steps; eexists; split; [exact S | reflexivity]).
    assert (J : Js.join (decodeAll (logKeys g) (bs1 ++ Throwing ex :: bs2))
                = (String.concat "" (decodeAll ks1 bs1)
                     ++ ("Exception reading log (" ++ k ++ "): " ++ ex ++ NL)
                     ++ String.concat "" (decodeAll ks2 bs2))%string).
    { rewrite Hk, (decodeAll_app ks1 bs1 k (Throwing ex) ks2 bs2 L).
      rewrite join_concat, concat_app. f_equal.
      rewrite <- !join_concat. reflexivity. }
    split.
    + rewrite (readLogsForDay_resolved _ _ _ _ _ _ S'), J. reflexivity.
    + intros prior w2 o P.
      rewrite (consolidateDailyLog_run _ _ _ _ _ _ S'), P, J. reflexivity.
Qed.

(** The theorem on a store whose first fragment cannot be converted: the
    line that stands for it is written to the artifact, before the text of
    the second fragment. *)
Lemma C10_decoding_exception_witness :
  readFile MemStore.s3 key_0730_a store_unreadable
  = (Resolved ("Exception reading log (" ++ key_0730_a
                 ++ "): TypeError: bad body" ++ NL)%string,
     store_unreadable, [mkEvent (GetObject key_0730_a) None]) /\
  exists g' w',
    consolidateDailyLog MemStore.s3 (group_0730 [key_0730_a; key_0730_c])
                        store_unreadable
    = (Resolved g', w',
       [mkEvent (GetObject key_0730_a) None;
        mkEvent (GetObject key_0730_c) None;
        mkEvent (GetObject artifact_0730) (Some MemStore.NoSuchKey);
        mkEvent
          (PutObject artifact_0730
             (String.append
                "Exception reading log (log/tbcd1234/20210730T131711.123Z.log): TypeError: bad body"
                (String.append NL (String.append "world" NL))))
          None]) /\
    log g'
    = Some (String.append
              "Exception reading log (log/tbcd1234/20210730T131711.123Z.log): TypeError: bad body"
              (String.append NL (String.append "world" NL))).
Proof.
  split.
  - exact (proj1 (C10_decoding_exception MemStore.s3)
                 key_0730_a store_unreadable
                 (Throwing "TypeError: bad body") store_unreadable eq_refl).
  - eexists _, _. split.
    + exact (proj2
               (proj2 (proj2 (proj2 (proj2
                  (C10_decoding_exception MemStore.s3))))
                  (group_0730 [key_0730_a; key_0730_c]) store_unreadable
                  [] key_0730_a [key_0730_c]
                  [] "TypeError: bad body" [Buffer ("world" ++ NL)%string]
                  store_unreadable
                  [mkEvent (GetObject key_0730_a) None;
                   mkEvent (GetObject key_0730_c) None]
                  eq_refl eq_refl
                  (proj1 (walk_resolved_iff
                            (fetch MemStore.s3) [key_0730_a; key_0730_c]
                            store_unreadable
                            [Throwing "TypeError: bad body";
                             Buffer ("world" ++ NL)%string]
                            store_unreadable
                            [mkEvent (GetObject key_0730_a) None;
                             mkEvent (GetObject key_0730_c) None])
                         eq_refl))
               EmptyString store_unreadable (Some MemStore.NoSuchKey)
               eq_refl).
    + reflexivity.
Defined.

(** ** One loader, and the invocation *)

Lemma partitionByDays_dayGroups (listing : list string) :
  partitionByDays listing = Resolved (dayGroups listing).
Proof.
  unfold dayGroups.
  destruct (partitionByDays_spec listing) as (groups & -> & _). reflexivity.
Qed.

Lemma dayGroups_members (listing : list string) g k :
  In g (dayGroups listing) -> In k (logKeys g) ->
  In k listing /\ matchesName k = true.
Proof.
  intros Hg Hk.
  destruct (partitionByDays_spec listing) as (groups & E & _ & _ & Hcat).
  rewrite partitionByDays_dayGroups in E. injection E as <-.
  apply filter_In. rewrite <- Hcat. apply in_concat.
  exists (logKeys g). split; [apply in_map; exact Hg | exact Hk].
Qed.

Section Loader.
Context {W : Type} (s3 : S3 W).

Lemma getLogFileList_run (tbcd : string) (w : W) :
  getLogFileList s3 tbcd w =
  match listObjectsV2 s3 tbcd w with
  | (Resolved data, w1) =>
      (Resolved (Contents data), w1, [mkEvent (ListObjectsV2 tbcd) None])
  | (Rejected e, w1) =>
      (Rejected e, w1, [mkEvent (ListObjectsV2 tbcd) (Some e)])
  end.
Proof.
  unfold getLogFileList, then_, send, resolve.
  destruct (listObjectsV2 s3 tbcd w) as [[data | e] w1]; reflexivity.
Qed.

Lemma removeLogItems_run (items : list string) (w : W) :
  removeLogItems s3 items w =
  match deleteObjects s3 items w with
  | (Resolved _, w1) =>
      (Resolved 0%Z, w1, [mkEvent (DeleteObjects items) None])
  | (Rejected e, w1) =>
      (Rejected e, w1, [mkEvent (DeleteObjects items) (Some e)])
  end.
Proof.
  unfold removeLogItems, then_, send, resolve.
  destruct (deleteObjects s3 items w) as [[u | e] w1]; reflexivity.
Qed.

(** The run of one loader: the listing, the merge of its days one after
    the other, and only then one delete request, for the whole listing. *)
Lemma processTbLoader_run (tbcd : string) (w : W) :
  processTbLoader s3 tbcd w =
  match listObjectsV2 s3 tbcd w with
  | (Rejected e, w1) =>
      (Rejected e, w1, [mkEvent (ListObjectsV2 tbcd) (Some e)])
  | (Resolved data, w1) =>
      match consolidateDailyLogs s3 (dayGroups (Contents data)) w1 with
      | (Rejected e, w2, t2) =>
          (Rejected e, w2, mkEvent (ListObjectsV2 tbcd) None :: t2)
      | (Resolved _, w2, t2) =>
          match deleteObjects s3 (Contents data) w2 with
          | (Resolved _, w3) =>
              (Resolved 0%Z, w3,
               mkEvent (ListObjectsV2 tbcd) None
                 :: t2 ++ [mkEvent (DeleteObjects (Contents data)) None])
          | (Rejected e, w3) =>
              (Rejected e, w3,
               mkEvent (ListObjectsV2 tbcd) None
                 :: t2 ++ [mkEvent (DeleteObjects (Contents data))
                                   (Some e)])
          end
      end
  end.
Proof.
  unfold processTbLoader. unfold then_ at 1. rewrite getLogFileList_run.
  destruct (listObjectsV2 s3 tbcd w) as [[data | e] w1]; [ | reflexivity ].
  cbv zeta. rewrite partitionByDays_dayGroups.
  unfold then_, settle.
  destruct (consolidateDailyLogs s3 (dayGroups (Contents data)) w1)
    as [[[gs | e] w2] t2]; [ | reflexivity ].
  rewrite removeLogItems_run.
  destruct (deleteObjects s3 (Contents data) w2) as [[u | e] w3];
    reflexivity.
Qed.

End Loader.

Section LoaderTraces.
Context {W : Type} (s3 : S3 W).

(** The merge of the days only reads and writes. *)
Lemma consolidateDailyLogs_emits (groups : list DailyLogInfo) :
  Emits getOrPut (consolidateDailyLogs s3 groups).
Proof.
  apply Emits_walk. intros g.
  unfold consolidateDailyLog, readLogsForDay, readPriorConsolidation,
    writeConsolidatedLog, readFile.
  repeat first
    [ apply Emits_then | apply Emits_catch | apply Emits_walk
    | apply Emits_resolve | apply Emits_reject | intro ];
    try (apply Emits_send; intros; first [left; reflexivity
                                         | right; reflexivity]).
  destruct (option_string_eqb _ _);
    [apply Emits_resolve | apply Emits_reject].
Qed.


Lemma readPriorConsolidation_rejects (g : DailyLogInfo) :
  RejectsLast (readPriorConsolidation s3 g).
Proof.
  intros w e. rewrite readPriorConsolidation_run. unfold outcome, trace.
  destruct (getObject s3 (key g) w) as [[body | e'] w1]; simpl;
    [discriminate | ].
  destruct (option_string_eqb (code e') (Some "NoSuchKey")); simpl;
    [discriminate | ].
  intros [= ->]. exists [], (GetObject (key g)). reflexivity.
Qed.

Lemma processTbLoader_rejects (tbcd : string) :
  RejectsLast (processTbLoader s3 tbcd).
Proof.
  unfold processTbLoader.
  apply RejectsLast_then;
    [ unfold getLogFileList; apply RejectsLast_then;
      [apply RejectsLast_send | intros; apply RejectsLast_resolve] | ].
  intros listing. cbv zeta. rewrite partitionByDays_dayGroups.
  apply RejectsLast_then;
    [ | intros; unfold removeLogItems; apply RejectsLast_then;
        [apply RejectsLast_send | intros; apply RejectsLast_resolve] ].
  apply RejectsLast_then; [intros w e H; discriminate | ].
  intros groups. apply RejectsLast_walk. intros g.
  unfold consolidateDailyLog.
  apply RejectsLast_then; [apply RejectsLast_then | ].
  - unfold readLogsForDay. apply RejectsLast_then.
    + apply RejectsLast_walk. intros k. unfold readFile.
      apply RejectsLast_then;
        [apply RejectsLast_send | intros; apply RejectsLast_resolve].
    + intros; apply RejectsLast_resolve.
  - apply readPriorConsolidation_rejects.
  - intros g'. unfold writeConsolidatedLog. cbv zeta.
    apply RejectsLast_then;
      [apply RejectsLast_send | intros; apply RejectsLast_resolve].
Qed.

Lemma processTbLoader_zero (tbcd : string) (w : W) z w' t :
  processTbLoader s3 tbcd w = (Resolved z, w', t) -> z = 0%Z.
Proof.
  rewrite processTbLoader_run.
  destruct (listObjectsV2 s3 tbcd w) as [[data | e] w1]; [ | discriminate ].
  destruct (consolidateDailyLogs s3 _ w1) as [[[gs | e] w2] t2];
    [ | discriminate ].
  destruct (deleteObjects s3 _ w2) as [[u | e] w3]; [ | discriminate ].
  intros [= <- _ _]. reflexivity.
Qed.

Lemma processTbLoaderList_zeros (paths : list string) :
  forall w rs w' t,
    Steps (processTbLoader s3) w paths rs w' t ->
    rs = repeat 0%Z (length paths).
Proof.
  induction 1 as [ | w p b w1 t1 rest bs w2 t2 E S IH]; [reflexivity | ].
  simpl. rewrite (processTbLoader_zero _ _ _ _ _ E), IH. reflexivity.
Qed.

Lemma handler_run (w : W) :
  handler s3 w =
  match getTbLoaderList s3 w with
  | (Rejected e, w1, t1) => (mkCallbackArgs (Some e) JsUndefined, w1, t1)
  | (Resolved paths, w1, t1) =>
      match processTbLoaderList s3 paths w1 with
      | (Resolved rs, w2, t2) =>
          (mkCallbackArgs None (JsArray (map JsNumber rs)), w2, t1 ++ t2)
      | (Rejected e, w2, t2) =>
          (mkCallbackArgs (Some e) JsUndefined, w2, t1 ++ t2)
      end
  end.
Proof.
  unfold handler, then_.
  destruct (getTbLoaderList s3 w) as [[[paths | e] w1] t1]; [ | reflexivity ].
  destruct (processTbLoaderList s3 paths w1) as [[[rs | e] w2] t2];
    reflexivity.
Qed.

Lemma getTbLoaderList_rejects : RejectsLast (getTbLoaderList s3).
Proof.
  unfold getTbLoaderList.
  apply RejectsLast_then;
    [apply RejectsLast_send | intros; apply RejectsLast_resolve].
Qed.

End LoaderTraces.

(** ** The claims about deletion and about the invocation *)

Lemma getOrPut_not_delete (t : list Event) :
  Forall getOrPut t ->
  (forall ev, In ev t -> isDelete ev = false) /\ filter isDelete t = [].
Proof.
  induction 1 as [ | ev t Hev _ [IH1 IH2]]; [split; [intros ev [] | reflexivity] | ].
  assert (E : isDelete ev = false).
  { destruct Hev as [H | H]; unfold isGet, isPut, isDelete in *;
      destruct (request ev); congruence. }
  split.
  - intros ev' [<- | H']; [exact E | apply IH1; exact H'].
  - simpl. rewrite E. exact IH2.
Qed.







(** C7 (as amended).  The handler runs the pipeline once: the
    enumeration, then the loaders one after the other.  When the
    enumeration and every loader succeed, it calls back with no error and
    an array holding the number 0 once per enumerated loader.  When the
    enumeration fails, or a loader fails after the loaders before it have
    succeeded, it calls back with that error and no result, and nothing
    more is requested: the error is the failure of the last request
    issued.  One of the three cases always applies.  No list of processed
    groups is passed in any of them. *)
Theorem C7_handler_callback {W : Type} (s3 : S3 W) (w : W) :
  let run := handler s3 w in
  (forall paths w1 t1 rs w2 t2,
      getTbLoaderList s3 w = (Resolved paths, w1, t1) ->
      Steps (processTbLoader s3) w1 paths rs w2 t2 ->
      run = (mkCallbackArgs None
               (JsArray (repeat (JsNumber 0) (length paths))),
             w2, t1 ++ t2)) /\
  (forall e w1 t1,
      getTbLoaderList s3 w = (Rejected e, w1, t1) ->
      run = (mkCallbackArgs (Some e) JsUndefined, w1, t1)) /\
  (forall paths w1 t1 e w2 t2,
      getTbLoaderList s3 w = (Resolved paths, w1, t1) ->
      FailsAt (processTbLoader s3) w1 paths e w2 t2 ->
      run = (mkCallbackArgs (Some e) JsUndefined, w2, t1 ++ t2)) /\
  ((exists paths w1 t1 rs w2 t2,
       getTbLoaderList s3 w = (Resolved paths, w1, t1) /\
       Steps (processTbLoader s3) w1 paths rs w2 t2) \/
   (exists e w1 t1, getTbLoaderList s3 w = (Rejected e, w1, t1)) \/
   (exists paths w1 t1 e w2 t2,
       getTbLoaderList s3 w = (Resolved paths, w1, t1) /\
       FailsAt (processTbLoader s3) w1 paths e w2 t2)) /\
  (forall e,
      cb_err (callbackOf run) = Some e ->
      cb_result (callbackOf run) = JsUndefined /\
      exists t0 rq, trace run = t0 ++ [mkEvent rq (Some e)]).
Proof.
  cbv zeta.
  split; [ | split; [ | split; [ | split ] ] ].
  - intros paths w1 t1 rs w2 t2 G S.
    rewrite handler_run, G. unfold processTbLoaderList.
    pose proof (processTbLoaderList_zeros s3 _ _ _ _ _ S) as Z.
    apply walk_resolved_iff in S. rewrite S, Z, map_repeat. reflexivity.
  - intros e w1 t1 G. rewrite handler_run, G. reflexivity.
  - intros paths w1 t1 e w2 t2 G F.
    rewrite handler_run, G. unfold processTbLoaderList.
    apply walk_rejected_iff in F. rewrite F. reflexivity.
  - destruct (getTbLoaderList s3 w) as [[[paths | e] w1] t1].
    + destruct (walkListWithPromises paths (processTbLoader s3) w1)
        as [[[rs | e] w2] t2] eqn:Wk.
      * left. exists paths, w1, t1, rs, w2, t2.
        split; [reflexivity | apply walk_resolved_iff; exact Wk].
      * right. right. exists paths, w1, t1, e, w2, t2.
        split; [reflexivity | apply walk_rejected_iff; exact Wk].
    + right. left. exists e, w1, t1. reflexivity.
  - intros e. rewrite handler_run.
    pose proof (getTbLoaderList_rejects s3 w) as R1.
    unfold outcome, trace in R1.
    destruct (getTbLoaderList s3 w) as [[[paths | e1] w1] t1]; simpl in R1.
    + pose proof (RejectsLast_walk (processTbLoader s3) paths
                                   (processTbLoader_rejects s3) w1) as R2.
      unfold outcome, trace in R2. unfold processTbLoaderList.
      destruct (walkListWithPromises paths (processTbLoader s3) w1)
        as [[[rs | e2] w2] t2]; simpl in R2; unfold callbackOf; simpl.
      * discriminate.
      * intros [= ->]. split; [reflexivity | ].
        destruct (R2 e eq_refl) as (t0 & rq & ->).
        exists (t1 ++ t0), rq. unfold trace. simpl.
        rewrite app_assoc. reflexivity.
    + unfold callbackOf; simpl. intros [= ->]. split; [reflexivity | ].
      destruct (R1 e eq_refl) as (t0 & rq & ->).
      exists t0, rq. reflexivity.
Qed.

(** The theorem on two invocations: in the end-to-end scenario the one
    loader is processed and the callback receives [[0]]; when the second
    write of [store_two_days] fails, the callback receives that error and
    the write is the last request. *)
Lemma C7_handler_callback_witness :
  (exists w' t,
      handler MemStore.s3 store_scenario
      = (mkCallbackArgs None (JsArray [JsNumber 0]), w', t) /\
      In (mkEvent (DeleteObjects [key_0730_a; key_0730_b]) None) t) /\
  (exists w' t0,
      handler MemStore.s3 store_two_days
      = (mkCallbackArgs (Some AccessDenied) JsUndefined, w',
         t0 ++ [mkEvent (PutObject artifact_0731 ("bye" ++ NL)%string)
                        (Some AccessDenied)])).
Proof.
  split.
  - eexists _, _. split.
    + eapply (proj1 (C7_handler_callback MemStore.s3 store_scenario)
                    ["log/tbcd1234/"]).
      * reflexivity.
      * apply walk_resolved_iff. reflexivity.
    + vm_compute. tauto.
  - eexists _, _.
    etransitivity.
    + eapply (proj1 (proj2 (proj2 (C7_handler_callback
                                     MemStore.s3 store_two_days)))
                    ["log/tbcd1234/"]).
      * reflexivity.
      * apply walk_rejected_iff. reflexivity.
    + instantiate (1 := [ mkEvent (ListObjectsV2 "log/") None;
                          mkEvent (ListObjectsV2 "log/tbcd1234/") None;
                          mkEvent (GetObject key_0730_a) None;
                          mkEvent (GetObject artifact_0730)
                                  (Some MemStore.NoSuchKey);
                          mkEvent (PutObject artifact_0730
                                             ("hello" ++ NL)%string) None;
                          mkEvent (GetObject key_0731_a) None;
                          mkEvent (GetObject artifact_0731)
                                  (Some MemStore.NoSuchKey) ]).
      reflexivity.
Defined.

(** C7 as stated fails.  In the end-to-end scenario one group is processed
    and the callback receives [[0]], not the summary of the group; when
    the second write of [store_two_days] fails, the callback receives the
    error alone, not the group processed before it. *)
Lemma C7_counterexample :
  (exists gs w' t,
      consolidateDailyLogs MemStore.s3 (dayGroups [key_0730_a; key_0730_b])
                           store_scenario = (Resolved gs, w', t) /\
      length gs = 1 /\
      callbackOf (handler MemStore.s3 store_scenario)
      = mkCallbackArgs None (JsArray [JsNumber 0]) /\
      callbackOf (handler MemStore.s3 store_scenario)
      <> claimedCallback gs None) /\
  (In (mkEvent (PutObject artifact_0730 ("hello" ++ NL)) None)
      (trace (handler MemStore.s3 store_two_days)) /\
   callbackOf (handler MemStore.s3 store_two_days)
   = mkCallbackArgs (Some AccessDenied) JsUndefined /\
   forall processed,
     callbackOf (handler MemStore.s3 store_two_days)
     <> claimedCallback processed (Some AccessDenied)).
Proof.
  split.
  - eexists _, _, _. split; [reflexivity | ].
    split; [reflexivity | ]. split; [reflexivity | ].
    vm_compute. discriminate.
  - split; [vm_compute; tauto | ]. split; [reflexivity | ].
    intros processed. vm_compute. discriminate.
Qed.

Lemma walk_empty_listings {W : Type} (s3 : S3 W) (paths : list string) :
  forall w,
    EmptyListings s3 w paths ->
    let x := walkListWithPromises paths (processTbLoader s3) w in
    Forall listOrEmptyDelete (trace x) /\
    (forall rs, outcome x = Resolved rs ->
                length (filter isDelete (trace x)) = length paths).
Proof.
  induction paths as [ | tbcd rest IH]; intros w H; cbv zeta.
  - rewrite walk_nil. split; [constructor | reflexivity].
  - inversion H as [ | ? ? ? data w1 L C Hrest]; subst.
    rewrite walk_cons, processTbLoader_run, L, C.
    change (dayGroups []) with (@nil DailyLogInfo).
    unfold consolidateDailyLogs. rewrite walk_nil. simpl app.
    destruct (deleteObjects s3 [] w1) as [[u | e] w2] eqn:D.
    + specialize (IH w2 (Hrest _ _ eq_refl)). cbv zeta in IH.
      destruct IH as [IHt IHn].
      destruct (walkListWithPromises rest (processTbLoader s3) w2)
        as [[[bs | e] w3] t3]; unfold trace, outcome in *; simpl in *.
      * split.
        -- constructor; [left; reflexivity | ].
           constructor; [right; reflexivity | exact IHt].
        -- intros rs _. f_equal. apply (IHn bs). reflexivity.
      * split; [ | discriminate ].
        constructor; [left; reflexivity | ].
        constructor; [right; reflexivity | exact IHt].
    + unfold trace, outcome. simpl. split; [ | discriminate ].
      constructor; [left; reflexivity | ].
      constructor; [right; reflexivity | constructor].
Qed.

(** C9 (as amended).  When the listing of every enumerated loader is
    empty, the handler makes no read and no write, and no delete request
    names a key: besides the listings it makes delete requests with an
    empty list of keys, one per loader when nothing fails.  With no loader
    at all it makes no request after the enumeration and calls back with
    the empty array; when nothing fails it calls back with one 0 per
    loader. *)
Theorem C9_empty_listings {W : Type} (s3 : S3 W) (w : W)
        (paths : list string) (w1 : W) (t1 : list Event) :
  getTbLoaderList s3 w = (Resolved paths, w1, t1) ->
  EmptyListings s3 w1 paths ->
  let run := handler s3 w in
  Forall listOrEmptyDelete (trace run) /\
  (paths = [] -> run = (mkCallbackArgs None (JsArray []), w1, t1)) /\
  (cb_err (callbackOf run) = None ->
   cb_result (callbackOf run) = JsArray (repeat (JsNumber 0) (length paths))
   /\ length (filter isDelete (trace run)) = length paths).
Proof.
  intros G H. cbv zeta.
  assert (T1 : t1 = [mkEvent (ListObjectsV2 "log/") None]).
  { unfold getTbLoaderList, then_, send, resolve in G.
    destruct (listObjectsV2 s3 "log/" w) as [[data | e] w0];
      [ | discriminate ].
    injection G as _ _ <-. reflexivity. }
  destruct (walk_empty_listings s3 paths w1 H) as [Ht Hn].
  rewrite handler_run, G. unfold processTbLoaderList.
  destruct (walkListWithPromises paths (processTbLoader s3) w1)
    as [[[rs | e] w2] t2] eqn:Wk; unfold trace, outcome, callbackOf in *;
    simpl in *.
  - split; [ | split ].
    + apply Forall_app. split; [ | exact Ht ].
      subst t1. constructor; [left; reflexivity | constructor].
    + intros ->. rewrite walk_nil in Wk. injection Wk as <- <- <-.
      rewrite app_nil_r. reflexivity.
    + intros _. split.
      * apply walk_resolved_iff in Wk.
        rewrite (processTbLoaderList_zeros s3 _ _ _ _ _ Wk), map_repeat.
        reflexivity.
      * subst t1. simpl. apply (Hn rs). reflexivity.
  - split; [ | split ].
    + apply Forall_app. split; [ | exact Ht ].
      subst t1. constructor; [left; reflexivity | constructor].
    + intros ->. rewrite walk_nil in Wk. discriminate.
    + discriminate.
Qed.

(** The theorem on a store whose only loader has nothing directly under
    its prefix: one delete request, with no key. *)
Lemma C9_empty_listings_witness :
  trace (handler MemStore.s3 store_nested)
  = [ mkEvent (ListObjectsV2 "log/") None;
      mkEvent (ListObjectsV2 "log/tbcd1234/") None;
      mkEvent (DeleteObjects []) None ] /\
  Forall listOrEmptyDelete (trace (handler MemStore.s3 store_nested)).
Proof.
  split; [reflexivity | ].
  refine (proj1 (C9_empty_listings MemStore.s3 store_nested
                   ["log/tbcd1234/"] store_nested
                   [mkEvent (ListObjectsV2 "log/") None] eq_refl _)).
  eapply EmptyListings_cons; [reflexivity | reflexivity | ].
  intros r w2 _. constructor.
Defined.

(** C9 as stated fails: the only enumerated loader has an empty listing,
    and a delete request is sent to the store for it. *)
Lemma C9_counterexample :
  outcome (getTbLoaderList MemStore.s3 store_nested)
  = Resolved ["log/tbcd1234/"] /\
  outcome (getLogFileList MemStore.s3 "log/tbcd1234/" store_nested)
  = Resolved [] /\
  exists ev, In ev (trace (handler MemStore.s3 store_nested)) /\
             isDelete ev = true.
Proof.
  split; [reflexivity | ]. split; [reflexivity | ].
  exists (mkEvent (DeleteObjects []) None). split; [ | reflexivity ].
  vm_compute. tauto.
Qed.

(** C1 (the code departs from it).  The listing of the loader holds a
    well-named fragment and [readme.txt].  The stray key fails the
    pattern and is in no group, but the delete request of the loader names
    it and the object is gone from the store afterwards. *)
Theorem C1_unmatched_key_deleted :
  let run := handler MemStore.s3 store_stray in
  matchesName key_readme = false /\
  (forall g, In g (dayGroups [key_0730_a; key_readme]) ->
             ~ In key_readme (logKeys g)) /\
  trace run
  = [ mkEvent (ListObjectsV2 "log/") None;
      mkEvent (ListObjectsV2 "log/tbcd1234/") None;
      mkEvent (GetObject key_0730_a) None;
      mkEvent (GetObject artifact_0730) (Some MemStore.NoSuchKey);
      mkEvent (PutObject artifact_0730 ("hello" ++ NL)) None;
      mkEvent (DeleteObjects [key_0730_a; key_readme]) None ] /\
  MemStore.lookup key_readme (MemStore.objects store_stray)
  = Some (Buffer "notes") /\
  MemStore.lookup key_readme (MemStore.objects (final run)) = None.
Proof.
  cbv zeta. split; [reflexivity | ]. split.
  - intros g Hg.
    apply (unmatched_in_no_group [key_0730_a; key_readme]
                                 (dayGroups [key_0730_a; key_readme]));
      [apply partitionByDays_dayGroups | reflexivity | exact Hg].
  - split; [reflexivity | ]. split; reflexivity.
Qed.

(** C2 (the code departs from it).  In the end-to-end scenario the second
    key, which has no fraction of a second, fails the pattern of the code;
    only ["hello\n"] is written to the artifact, and both fragments are
    deleted, so that ["world\n"] is lost. *)
Theorem C2_scenario_run :
  let run := handler MemStore.s3 store_scenario in
  matchesName key_0730_a = true /\
  matchesName key_0730_b = false /\
  map logKeys (dayGroups [key_0730_a; key_0730_b]) = [[key_0730_a]] /\
  callbackOf run = mkCallbackArgs None (JsArray [JsNumber 0]) /\
  trace run
  = [ mkEvent (ListObjectsV2 "log/") None;
      mkEvent (ListObjectsV2 "log/tbcd1234/") None;
      mkEvent (GetObject key_0730_a) None;
      mkEvent (GetObject artifact_0730) (Some MemStore.NoSuchKey);
      mkEvent (PutObject artifact_0730 ("hello" ++ NL)) None;
      mkEvent (DeleteObjects [key_0730_a; key_0730_b]) None ] /\
  MemStore.objects (final run)
  = [ (artifact_0730, Buffer ("hello" ++ NL)) ].
Proof.
  cbv zeta. repeat split; reflexivity.
Qed.

(* ================================================================= *)
(** * Further properties of the code *)

(** ** The shape of the keys that the pattern accepts *)

Module RegexShape.

Lemma lit_test ci p s c k res :
  matchRe ci (Lit p) s c k = Some res ->
  exists a s',
    s = String a s' /\
    (if ci then Js.eqbIgnoreCase p a else Ascii.eqb p a) = true /\
    k (String a EmptyString) s' c = Some res.
Proof.
  simpl. destruct s as [ | a s']; [discriminate | ].
  destruct (if ci then Js.eqbIgnoreCase p a else Ascii.eqb p a) eqn:E;
    [eauto | discriminate].
Qed.

Lemma digit_test ci s c k res :
  matchRe ci Digit s c k = Some res ->
  exists a s',
    s = String a s' /\ Js.isDigit a = true /\
    k (String a EmptyString) s' c = Some res.
Proof.
  simpl. destruct s as [ | a s']; [discriminate | ].
  destruct (Js.isDigit a) eqn:E; [eauto | discriminate].
Qed.

Lemma dot_test ci s c k res :
  matchRe ci Dot s c k = Some res ->
  exists a s',
    s = String a s' /\ Js.isLineTerminator a = false /\
    k (String a EmptyString) s' c = Some res.
Proof.
  simpl. destruct s as [ | a s']; [discriminate | ].
  destruct (Js.isLineTerminator a) eqn:E; [discriminate | eauto].
Qed.

(** One step of the symbolic run, keeping the test that the character
    passed. *)
Ltac step_test H :=
  first
    [ rewrite seq_eq in H
    | rewrite group_eq in H
    | rewrite eps_eq in H
    | let a := fresh "a" in let s := fresh "s" in let T := fresh "T" in
      apply lit_test in H; destruct H as (a & s & -> & T & H)
    | let a := fresh "a" in let s := fresh "s" in let T := fresh "T" in
      apply digit_test in H; destruct H as (a & s & -> & T & H)
    | let a := fresh "a" in let s := fresh "s" in let T := fresh "T" in
      apply dot_test in H; destruct H as (a & s & -> & T & H) ];
  cbv beta in H.

Lemma lower_upper (c : ascii) :
  Js.lowerChar (Js.upperChar c) = Js.lowerChar c.
Proof.
  destruct c as [[] [] [] [] [] [] [] []]; vm_compute; reflexivity.
Qed.

Lemma ignoreCase_lower (p a : ascii) :
  Js.eqbIgnoreCase p a = true -> Js.lowerChar a = Js.lowerChar p.
Proof.
  unfold Js.eqbIgnoreCase. intros E. apply Ascii.eqb_eq in E.
  rewrite <- (lower_upper a), <- E. apply lower_upper.
Qed.

(** A successful match took a prefix [m] of the input, of at least
    [minLen r] characters, and went on with the rest. *)
Lemma matchRe_consumes ci r :
  forall s c k res,
    matchRe ci r s c k = Some res ->
    exists m s' c',
      s = (m ++ s')%string /\
      minLen r <= String.length m /\
      k m s' c' = Some res /\
      forall i, ~ In i (reGroups r) -> c' i = c i.
Proof.
  induction r as [ | p | | | r1 IH1 r2 IH2 | r1 IH1 | i r1 IH1 ];
    intros s c k res H; simpl in H.
  - exists EmptyString, s, c. auto.
  - destruct s as [ | a s']; [discriminate | ].
    destruct (if ci then Js.eqbIgnoreCase p a else Ascii.eqb p a);
      [ | discriminate ].
    exists (String a EmptyString), s', c. auto.
  - destruct s as [ | a s']; [discriminate | ].
    destruct (Js.isDigit a); [ | discriminate ].
    exists (String a EmptyString), s', c. auto.
  - destruct s as [ | a s']; [discriminate | ].
    destruct (Js.isLineTerminator a); [discriminate | ].
    exists (String a EmptyString), s', c. auto.
  - apply IH1 in H. destruct H as (m1 & s1 & c1 & -> & L1 & H & F1).
    apply IH2 in H. destruct H as (m2 & s2 & c2 & -> & L2 & H & F2).
    exists (m1 ++ m2)%string, s2, c2. split; [ | split; [ | split ] ].
    + clear. induction m1; simpl; congruence.
    + assert (E : String.length (m1 ++ m2)%string
                  = String.length m1 + String.length m2)
        by (clear; induction m1; simpl; congruence).
      simpl. lia.
    + exact H.
    + intros i Hi. simpl in Hi. rewrite in_app_iff in Hi.
      rewrite F2, F1; tauto.
  - destruct (matchRe ci r1 s c k) as [res' | ] eqn:E.
    + injection H as <-. apply IH1 in E.
      destruct E as (m & s' & c' & E & _ & K & F).
      exists m, s', c'. simpl. repeat split; auto; lia.
    + exists EmptyString, s, c. simpl. auto.
  - apply IH1 in H. destruct H as (m1 & s1 & c1 & -> & L1 & H & F1).
    exists m1, s1, (setCapture i m1 c1). repeat split; auto.
    intros j Hj. simpl in Hj. unfold setCapture.
    destruct (Nat.eqb_spec j i) as [-> | Hne]; [tauto | ].
    apply F1. tauto.
Qed.

Lemma substring_0_0 (s : string) : substring 0 0 s = EmptyString.
Proof. destruct s; reflexivity. Qed.

End RegexShape.

Import RegexShape.

(** The captures of a key that matches are cut out of it at fixed
    positions; the characters before them are [log/tbcd] in either case,
    those of the date are digits, and [T] (or [t]) follows the date. *)
Lemma nameRe_exec_shape (item : string) (parse : list (option string)) :
  nameRe_exec item = Some parse ->
  at_ parse TBCDIX = Some (substring 4 8 item) /\
  at_ parse DATEIX = Some (substring 13 8 item) /\
  at_ parse YEARIX = Some (substring 13 4 item) /\
  at_ parse MONTHIX = Some (substring 17 2 item) /\
  at_ parse DAYIX = Some (substring 19 2 item) /\
  Js.toLowerCase (substring 0 8 item) = "log/tbcd" /\
  substring 12 1 item = "/" /\
  allDigits (substring 13 8 item) = true /\
  Js.toLowerCase (substring 21 1 item) = "t" /\
  26 <= String.length item /\
  allDigits (substring 13 4 item) = true.
Proof.
  unfold nameRe_exec, exec.
  destruct (matchRe true nameRe_body item noCaptures
              (fun m _ c => Some (setCapture 0 m c))) as [c | ] eqn:H;
    [ | discriminate ].
  intros [= <-].
  unfold nameRe_body in H. cbn [seqs lits times] in H.
  repeat step_test H.
  apply matchRe_consumes in H.
  destruct H as (m6 & s6 & c6 & -> & _ & H & F6).
  cbv beta in H.
  apply matchRe_consumes in H.
  destruct H as (m7 & s7 & c7 & -> & L7 & H & F7).
  cbv beta in H. injection H as <-.
  cbv [minLen Nat.add] in L7.
  simpl map. unfold at_, TBCDIX, DATEIX, YEARIX, MONTHIX, DAYIX. cbn [nth].
  cbv [setCapture Nat.eqb].
  rewrite (F7 1), (F7 2), (F7 3), (F7 4), (F7 5),
          (F6 1), (F6 2), (F6 3), (F6 4), (F6 5)
    by (cbv [reGroups rep times upto Nat.sub app In]; lia).
  cbv [setCapture Nat.eqb]. cbn [append substring].
  rewrite !substring_0_0.
  do 5 (split; [reflexivity | ]).
  split; [ | split; [ | split; [ | split; [ | split ] ] ] ].
  - cbn [Js.toLowerCase].
    rewrite (ignoreCase_lower _ _ T), (ignoreCase_lower _ _ T0),
      (ignoreCase_lower _ _ T1), (ignoreCase_lower _ _ T2),
      (ignoreCase_lower _ _ T3), (ignoreCase_lower _ _ T4),
      (ignoreCase_lower _ _ T5), (ignoreCase_lower _ _ T6).
    reflexivity.
  - apply ignoreCase_lower in T11.
    destruct a11 as [[] [] [] [] [] [] [] []];
      first [reflexivity | discriminate T11].
  - cbn [allDigits].
    rewrite T12, T13, T14, T15, T16, T17, T18, T19. reflexivity.
  - cbn [Js.toLowerCase]. rewrite (ignoreCase_lower _ _ T20). reflexivity.
  - cbn [String.length]. rewrite !length_append. lia.
  - cbn [allDigits]. rewrite T12, T13, T14, T15. reflexivity.
Qed.

Lemma substring_length (s : string) :
  forall n m, n + m <= String.length s ->
              String.length (substring n m s) = m.
Proof.
  induction s as [ | c s IH]; intros [ | n] [ | m] L; simpl in *;
    try reflexivity; try lia.
  - f_equal. apply (IH 0 m). lia.
  - apply (IH n 0). lia.
  - apply (IH n (S m)). lia.
Qed.

Lemma substring_append (s x : string) :
  forall n m, n + m <= String.length s ->
              substring n m (s ++ x) = substring n m s.
Proof.
  induction s as [ | c s IH]; intros [ | n] [ | m] L; simpl in *;
    try lia.
  - destruct x; reflexivity.
  - reflexivity.
  - f_equal. apply (IH 0 m). lia.
  - apply (IH n 0). lia.
  - apply (IH n (S m)). lia.
Qed.

(** Where the captures of a matching key sit. *)
Lemma captures_at_positions (k : string) :
  matchesName k = true ->
  keyTb k = Some (substring 4 8 k) /\
  keyDate k = Some (substring 13 8 k) /\
  keyGroup YEARIX k = Some (substring 13 4 k) /\
  keyGroup MONTHIX k = Some (substring 17 2 k) /\
  keyGroup DAYIX k = Some (substring 19 2 k) /\
  allDigits (substring 13 8 k) = true /\
  26 <= String.length k.
Proof.
  unfold matchesName, keyTb, keyDate, keyGroup.
  destruct (nameRe_exec k) as [parse | ] eqn:E; [ | discriminate ].
  intros _.
  destruct (nameRe_exec_shape _ _ E)
    as (H1 & H2 & H3 & H4 & H5 & _ & _ & H8 & _ & H10 & _).
  auto 10.
Qed.

(** The year of a fragment key is made of digits. *)
Lemma fragment_key_year (k : string) :
  matchesName k = true -> allDigits (substring 13 4 k) = true.
Proof.
  unfold matchesName.
  destruct (nameRe_exec k) as [parse | ] eqn:E; [ | discriminate ].
  intros _. apply (nameRe_exec_shape _ _ E).
Qed.


(** X2.  The captures of a key that matches sit at fixed positions: the
    loader is the eight characters from position 4, the date the eight
    digits from position 13 (year, month and day are its parts of four,
    two and two characters), and the key has 26 characters at least. *)
Theorem fragment_key_positions (k : string) :
  matchesName k = true ->
  keyTb k = Some (substring 4 8 k) /\
  keyDate k = Some (substring 13 8 k) /\
  keyGroup YEARIX k = Some (substring 13 4 k) /\
  keyGroup MONTHIX k = Some (substring 17 2 k) /\
  keyGroup DAYIX k = Some (substring 19 2 k) /\
  allDigits (substring 13 8 k) = true /\
  26 <= String.length k.
Proof.
  unfold matchesName, keyTb, keyDate, keyGroup.
  destruct (nameRe_exec k) as [parse | ] eqn:E; [ | discriminate ].
  intros _.
  destruct (nameRe_exec_shape _ _ E)
    as (T & D & Y & Mo & Da & _ & _ & Dg & _ & L & _).
  repeat split; assumption.
Qed.

(** ** What else the pattern accepts, and what it never accepts *)

(** More input after a match never spoils it: nothing in the pattern looks
    at the end of the key. *)
Lemma matchRe_suffix ci r (x : string) :
  forall s c k k',
    (forall m s' c', k m s' c' <> None -> k' m (s' ++ x)%string c' <> None) ->
    matchRe ci r s c k <> None ->
    matchRe ci r (s ++ x)%string c k' <> None.
Proof.
  induction r as [ | p | | | r1 IH1 r2 IH2 | r1 IH1 | i r1 IH1 ];
    intros s c k k' K H; simpl in *.
  - apply K, H.
  - destruct s as [ | a s']; [congruence | ]. simpl.
    destruct (if ci then Js.eqbIgnoreCase p a else Ascii.eqb p a);
      [apply K, H | exact H].
  - destruct s as [ | a s']; [congruence | ]. simpl.
    destruct (Js.isDigit a); [apply K, H | exact H].
  - destruct s as [ | a s']; [congruence | ]. simpl.
    destruct (Js.isLineTerminator a); [exact H | apply K, H].
  - revert H. apply IH1. intros m1 s1 c1. apply IH2.
    intros m2 s2 c2. apply K.
  - destruct (matchRe ci r1 s c k) as [res | ] eqn:E.
    + assert (E' : matchRe ci r1 (s ++ x)%string c k' <> None)
        by (apply (IH1 s c k k' K); congruence).
      destruct (matchRe ci r1 (s ++ x)%string c k'); congruence.
    + destruct (matchRe ci r1 (s ++ x)%string c k');
        [discriminate | apply K, H].
  - revert H. apply IH1. intros m1 s1 c1. apply K.
Qed.

(** X3.  A key with a matching beginning matches, with the same loader and
    date. *)
Theorem pattern_ignores_suffix (k x : string) :
  matchesName k = true ->
  matchesName (k ++ x) = true /\
  keyTb (k ++ x) = keyTb k /\
  keyDate (k ++ x) = keyDate k /\
  keyGroup YEARIX (k ++ x) = keyGroup YEARIX k /\
  keyGroup MONTHIX (k ++ x) = keyGroup MONTHIX k /\
  keyGroup DAYIX (k ++ x) = keyGroup DAYIX k.
Proof.
  intros M.
  assert (M' : matchesName (k ++ x) = true).
  { unfold matchesName, nameRe_exec, exec in *.
    destruct (matchRe true nameRe_body k noCaptures
                (fun m _ c => Some (setCapture 0 m c))) eqn:E;
      [ | discriminate ].
    assert (N : matchRe true nameRe_body (k ++ x)%string noCaptures
                  (fun m _ c => Some (setCapture 0 m c)) <> None).
    { apply (matchRe_suffix true nameRe_body x k noCaptures
               (fun m _ c => Some (setCapture 0 m c))).
      - intros; discriminate.
      - congruence. }
    destruct (matchRe true nameRe_body (k ++ x)%string noCaptures
                (fun m _ c => Some (setCapture 0 m c)));
      [reflexivity | congruence]. }
  split; [exact M' | ].
  destruct (captures_at_positions _ M) as (T & D & Y & Mo & Da & _ & L).
  destruct (captures_at_positions _ M') as (T' & D' & Y' & Mo' & Da' & _).
  rewrite T, D, Y, Mo, Da, T', D', Y', Mo', Da'.
  rewrite !substring_append by lia. auto.
Qed.

Lemma digit_not_letter (c : ascii) (p : ascii) :
  Js.isDigit c = true -> Js.isLower p = true -> Js.lowerChar c <> p.
Proof.
  destruct c as [[] [] [] [] [] [] [] []]; vm_compute; try discriminate;
    intros _ H E; subst p; vm_compute in H; discriminate.
Qed.

(** The eight characters that a matching key starts with. *)
Lemma matching_key_start (k : string) :
  matchesName k = true ->
  exists c0 c1 c2 c3 c4 c5 c6 c7 rest,
    k = String c0 (String c1 (String c2 (String c3 (String c4 (String c5
          (String c6 (String c7 rest))))))) /\
    Js.toLowerCase
      (String c0 (String c1 (String c2 (String c3 (String c4 (String c5
          (String c6 (String c7 EmptyString))))))))
    = "log/tbcd".
Proof.
  unfold matchesName.
  destruct (nameRe_exec k) as [parse | ] eqn:E; [ | discriminate ].
  intros _.
  destruct (nameRe_exec_shape _ _ E) as (_ & _ & _ & _ & _ & H & _).
  destruct k as [ | c0 [ | c1 [ | c2 [ | c3 [ | c4 [ | c5 [ | c6 [ | c7 rest]]]]]]]];
    try discriminate H.
  exists c0, c1, c2, c3, c4, c5, c6, c7, rest. split; [reflexivity | ].
  simpl in H. rewrite substring_0_0 in H. exact H.
Qed.

(** X4.  The test of [getTbLoaderList] accepts the prefix of every key that
    the pattern of [partitionByDays] accepts. *)
Theorem loader_filter_accepts_fragments (k p : string) :
  matchesName k = true ->
  Js.startsWith k p = true ->
  8 <= String.length p ->
  isLoaderPath p = true.
Proof.
  intros M P L.
  destruct (matching_key_start _ M)
    as (c0 & c1 & c2 & c3 & c4 & c5 & c6 & c7 & rest & -> & H).
  destruct p as [ | p0 [ | p1 [ | p2 [ | p3 [ | p4 [ | p5 [ | p6 [ | p7 q]]]]]]]];
    simpl in L; try lia.
  simpl in P.
  repeat (apply andb_true_iff in P; destruct P as [?E P]).
  repeat match goal with
         | E : Ascii.eqb _ _ = true |- _ => apply Ascii.eqb_eq in E; subst
         end.
  unfold isLoaderPath. simpl in H |- *. injection H as -> -> -> -> -> -> -> ->.
  destruct q; reflexivity.
Qed.

(** ** The keys of the consolidated artifacts *)

(** The fields of a group of the partitioner: loader of eight characters,
    year of four digits, month and day of two characters. *)
Lemma group_fields (g : DailyLogInfo) :
  GroupOk g ->
  exists tbv y m d,
    tb g = Some tbv /\ year g = Some y /\
    month g = Some m /\ day g = Some d /\
    String.length tbv = 8 /\ String.length y = 4 /\
    String.length m = 2 /\ String.length d = 2 /\
    allDigits y = true /\
    key g = consolidatedKey tbv y m d /\
    groupDate g = Some (y ++ m ++ d)%string.
Proof.
  intros [Gne Gd (k & rest & Ek & Etb) Gfr Gkey Gmem].
  destruct (Gmem k) as (M & _ & Y & Mo & Da);
    [rewrite Ek; left; reflexivity | ].
  destruct (captures_at_positions _ M) as (T & _ & Y' & Mo' & Da' & _ & L).
  pose proof (fragment_key_year _ M) as Dg.
  exists (substring 4 8 k), (substring 13 4 k),
    (substring 17 2 k), (substring 19 2 k).
  assert (Et : tb g = Some (substring 4 8 k)) by congruence.
  assert (Ey : year g = Some (substring 13 4 k)) by congruence.
  assert (Em : month g = Some (substring 17 2 k)) by congruence.
  assert (Ed : day g = Some (substring 19 2 k)) by congruence.
  rewrite !substring_length by lia.
  repeat split; try assumption.
  - rewrite Gkey, Et, Ey, Em, Ed. reflexivity.
  - unfold groupDate. rewrite Ey, Em, Ed. reflexivity.
Qed.

(** The consolidated key of a group starts with [log/] and a digit. *)
Lemma artifact_key_digit (g : DailyLogInfo) :
  GroupOk g ->
  exists tbv d0 y' m d,
    key g = consolidatedKey tbv (String d0 y') m d /\
    Js.lowerChar d0 <> "t"%char.
Proof.
  intros G.
  destruct (group_fields g G)
    as (tbv & y & m & d & _ & _ & _ & _ & _ & Ly & _ & _ & Dy & K & _).
  destruct y as [ | d0 y']; [discriminate | ].
  simpl in Dy. apply andb_true_iff in Dy. destruct Dy as [D0 _].
  exists tbv, d0, y', m, d. split; [exact K | ].
  apply digit_not_letter; [exact D0 | reflexivity].
Qed.

(** Hence it does not match the pattern. *)
Lemma artifact_key_unmatched (g : DailyLogInfo) :
  GroupOk g -> matchesName (key g) = false.
Proof.
  intros G.
  destruct (artifact_key_digit g G) as (tbv & d0 & y' & m & d & -> & N).
  destruct (matchesName _) eqn:M; [ | reflexivity ].
  exfalso.
  destruct (matching_key_start _ M)
    as (c0 & c1 & c2 & c3 & c4 & c5 & c6 & c7 & rest & E & H).
  unfold consolidatedKey in E. simpl in E.
  injection E as <- <- <- <- <- _.
  simpl in H. inversion H.
  match goal with X : Js.lowerChar d0 = _ |- _ => exact (N X) end.
Qed.


(** The parts of a consolidated key can be read back from it, their
    lengths being fixed. *)
Lemma consolidatedKey_inj (t1 y1 m1 d1 t2 y2 m2 d2 : string) :
  String.length y1 = String.length y2 ->
  String.length m1 = String.length m2 ->
  String.length t1 = String.length t2 ->
  String.length d1 = String.length d2 ->
  consolidatedKey t1 y1 m1 d1 = consolidatedKey t2 y2 m2 d2 ->
  t1 = t2 /\ y1 = y2 /\ m1 = m2 /\ d1 = d2.
Proof.
  intros Ly Lm Lt Ld E. unfold consolidatedKey in E. simpl in E.
  injection E as E.
  apply append_inj_length in E; [ | exact Ly ]. destruct E as [-> E].
  simpl in E. injection E as E.
  apply append_inj_length in E; [ | exact Lm ]. destruct E as [-> E].
  simpl in E. injection E as E.
  apply append_inj_length in E; [ | exact Lt ]. destruct E as [-> E].
  simpl in E. injection E as E.
  apply append_inj_length in E; [ | exact Ld ]. destruct E as [-> _].
  auto.
Qed.

Lemma NoDup_map_coarser {A B C} (f : A -> B) (h : A -> C) (l : list A) :
  (forall x y, In x l -> In y l -> h x = h y -> f x = f y) ->
  NoDup (map f l) -> NoDup (map h l).
Proof.
  induction l as [ | a l IH]; intros Hc Hn; simpl; [constructor | ].
  inversion Hn as [ | ? ? Hnot Hn']; subst. constructor.
  - intros Hin. apply in_map_iff in Hin. destruct Hin as (b & E & Hb).
    apply Hnot. apply in_map_iff. exists b. split; [ | exact Hb ].
    apply Hc; [right; exact Hb | left; reflexivity | exact E].
  - apply IH; [ | exact Hn' ].
    intros x y Hx Hy. apply Hc; right; assumption.
Qed.

(** X6.  Groups of different loader or day have different consolidated
    keys. *)
Theorem artifact_key_injective (g1 g2 : DailyLogInfo) :
  GroupOk g1 -> GroupOk g2 ->
  key g1 = key g2 ->
  tb g1 = tb g2 /\ year g1 = year g2 /\
  month g1 = month g2 /\ day g1 = day g2 /\
  groupDate g1 = groupDate g2.
Proof.
  intros G1 G2 E.
  destruct (group_fields g1 G1)
    as (t1 & y1 & m1 & d1 & -> & -> & -> & -> & Lt1 & Ly1 & Lm1 & Ld1 & _ & K1 & D1).
  destruct (group_fields g2 G2)
    as (t2 & y2 & m2 & d2 & -> & -> & -> & -> & Lt2 & Ly2 & Lm2 & Ld2 & _ & K2 & D2).
  rewrite K1, K2 in E.
  apply consolidatedKey_inj in E; try congruence.
  destruct E as (-> & -> & -> & ->).
  rewrite D1, D2. auto.
Qed.

(** X7.  On a listing in which equal dates are contiguous, no two groups
    have the same consolidated key. *)
Theorem sorted_listing_distinct_artifacts (keys : list string) :
  contiguous (map keyDate (filter matchesName keys)) ->
  NoDup (map key (dayGroups keys)).
Proof.
  intros Hc.
  destruct (partitionByDays_spec keys) as (groups & E & Hok & Hadj & Hcat).
  rewrite partitionByDays_dayGroups in E. injection E as <-.
  apply (NoDup_map_coarser groupDate key).
  - intros x y Hx Hy Exy. rewrite Forall_forall in Hok.
    destruct (group_fields x (Hok x Hx))
      as (t1 & y1 & m1 & d1 & _ & _ & _ & _ & Lt1 & Ly1 & Lm1 & Ld1 & _ & K1 & D1).
    destruct (group_fields y (Hok y Hy))
      as (t2 & y2 & m2 & d2 & _ & _ & _ & _ & Lt2 & Ly2 & Lm2 & Ld2 & _ & K2 & D2).
    rewrite K1, K2 in Exy.
    apply consolidatedKey_inj in Exy; try congruence.
    destruct Exy as (_ & -> & -> & ->). congruence.
  - apply contiguous_groups_nodup; [exact Hok | exact Hadj | ].
    rewrite <- Hcat, concat_map, map_map in Hc. exact Hc.
Qed.

(** ** The texts that the reader returns and the merge writes *)

Lemma sevenBit_mask (c : ascii) :
  (nat_of_ascii (ascii_of_nat (Nat.land (nat_of_ascii c) 127)) <? 128) = true.
Proof.
  destruct c as [[] [] [] [] [] [] [] []]; vm_compute; reflexivity.
Qed.

Lemma sevenBit_asciiSlice (s : string) : sevenBit (asciiSlice s) = true.
Proof.
  induction s as [ | c s IH]; [reflexivity | ].
  simpl. rewrite sevenBit_mask, IH. reflexivity.
Qed.

Lemma sevenBit_append (a b : string) :
  sevenBit (a ++ b) = sevenBit a && sevenBit b.
Proof.
  induction a as [ | c a IH]; [reflexivity | ].
  simpl. rewrite IH, andb_assoc. reflexivity.
Qed.

Lemma sevenBit_terminate (s : string) :
  sevenBit s = true -> sevenBit (terminate s) = true.
Proof.
  intros H. unfold terminate. destruct (lacksNewline s); [ | exact H ].
  rewrite sevenBit_append, H. reflexivity.
Qed.


Lemma clean_spec (s : string) :
  clean s = true <->
  sevenBit s = true /\ (s = EmptyString \/ endsWithNewline s = true).
Proof.
  unfold clean. rewrite andb_true_iff. destruct s as [ | c s].
  - intuition.
  - split; intros [H1 H2]; split; auto.
    destruct H2 as [H2 | H2]; [discriminate | exact H2].
Qed.

Lemma clean_normalise (content : string) : clean (normalise content) = true.
Proof.
  apply clean_spec. unfold normalise. split.
  - apply sevenBit_terminate, sevenBit_asciiSlice.
  - destruct (asciiSlice content) as [ | c s] eqn:E.
    + left. reflexivity.
    + right. apply (terminate_spec (String c s)). discriminate.
Qed.



Lemma clean_reads_back (k s : string) :
  clean s = true -> decodeBody k (Buffer s) = s.
Proof.
  intros H. apply clean_spec in H. destruct H as [H7 Hc].
  apply decodeBody_clean; assumption.
Qed.

(** X8.  What [readFile] makes of a buffer is read back unchanged, under any
    key. *)
Theorem reader_is_idempotent (k k' content : string) :
  decodeBody k (Buffer content) = normalise content /\
  clean (normalise content) = true /\
  decodeBody k' (Buffer (decodeBody k (Buffer content)))
  = decodeBody k (Buffer content).
Proof.
  split; [reflexivity | ]. split; [apply clean_normalise | ].
  change (decodeBody k (Buffer content)) with (normalise content).
  apply clean_reads_back, clean_normalise.
Qed.

(** ** The requests of a merge, of a loader and of an invocation *)

Section Requests.
Context {W : Type} (s3 : S3 W).

(** Reading the members is fetching them and converting the bodies. *)
Lemma walk_readFile_fetch (keys : list string) :
  forall w,
    walkListWithPromises keys (readFile s3) w =
    match walkListWithPromises keys (fetch s3) w with
    | (Resolved bodies, w', t) => (Resolved (decodeAll keys bodies), w', t)
    | (Rejected e, w', t) => (Rejected e, w', t)
    end.
Proof.
  induction keys as [ | k ks IH]; intros w; [reflexivity | ].
  rewrite !walk_cons, readFile_run, fetch_run.
  destruct (getObject s3 k w) as [[body | e] w1]; [ | reflexivity ].
  rewrite IH.
  destruct (walkListWithPromises ks (fetch s3) w1) as [[[bs | e] w2] t2];
    reflexivity.
Qed.

(** The requests made while the members of a group are read. *)
Lemma walk_fetch_requests (keys : list string) :
  forall w,
    Forall (fun ev => exists k, In k keys /\ request ev = GetObject k)
           (trace (walkListWithPromises keys (fetch s3) w)).
Proof.
  induction keys as [ | k ks IH]; intros w; [constructor | ].
  rewrite walk_cons, fetch_run.
  assert (Hk : forall o, exists k', In k' (k :: ks) /\
                  request (mkEvent (GetObject k) o) = GetObject k')
    by (intros o; exists k; split; [left | ]; reflexivity).
  assert (Hks : forall w1,
             Forall (fun ev => exists k', In k' (k :: ks) /\
                                          request ev = GetObject k')
                    (trace (walkListWithPromises ks (fetch s3) w1))).
  { intros w1. eapply Forall_impl; [ | apply IH ].
    intros ev (k' & Hin & E). exists k'. split; [right; exact Hin | exact E]. }
  destruct (getObject s3 k w) as [[body | e] w1].
  - specialize (Hks w1).
    destruct (walkListWithPromises ks (fetch s3) w1) as [[[bs | e] w2] t2];
      unfold trace in *; cbn [snd app] in *;
      (constructor; [apply Hk | exact Hks]).
  - unfold trace. cbn [snd]. constructor; [apply Hk | constructor].
Qed.

(** The requests of the merge of one group, whatever its outcome: the
    members are fetched; then, if all of them came, the artifact is
    fetched; then, unless that failed for another reason than an absent
    key, the artifact is written. *)
Lemma consolidateDailyLog_requests (g : DailyLogInfo) (w : W) :
  exists t1 tl,
    trace (consolidateDailyLog s3 g w) = t1 ++ tl /\
    Forall (fun ev => exists k, In k (logKeys g) /\ request ev = GetObject k)
           t1 /\
    (tl = [] \/
     (exists o, tl = [mkEvent (GetObject (key g)) o]) \/
     (exists o body o',
         tl = [mkEvent (GetObject (key g)) o;
               mkEvent (PutObject (key g) body) o'])).
Proof.
  pose proof (walk_fetch_requests (logKeys g) w) as Hreq.
  pose proof (walk_readFile_fetch (logKeys g) w) as Hrd.
  destruct (walkListWithPromises (logKeys g) (fetch s3) w)
    as [[[bodies | e] w1] t1] eqn:Wf; unfold trace in Hreq; simpl in Hreq.
  - apply walk_resolved_iff in Hrd.
    rewrite (consolidateDailyLog_run s3 _ _ _ _ _ Hrd).
    exists t1. unfold priorRead.
    destruct (getObject s3 (key g) w1) as [[body | e] w2].
    + cbv zeta.
      destruct (putObject s3 (key g) _ w2) as [[u | e] w3];
        eexists; (split; [reflexivity | split; [exact Hreq | ] ]);
        right; right; do 3 eexists; reflexivity.
    + destruct (option_string_eqb (code e) (Some "NoSuchKey")).
      * cbv zeta.
        destruct (putObject s3 (key g) _ w2) as [[u | e'] w3];
          eexists; (split; [reflexivity | split; [exact Hreq | ] ]);
          right; right; do 3 eexists; reflexivity.
      * eexists. split; [reflexivity | split; [exact Hreq | ] ].
        right; left; eexists; reflexivity.
  - exists t1, []. split; [ | split; [exact Hreq | left; reflexivity] ].
    unfold consolidateDailyLog, then_.
    rewrite readLogsForDay_run, Hrd. unfold trace. simpl.
    rewrite app_nil_r. reflexivity.
Qed.

End Requests.

(** X10.  A member that cannot be fetched, for whatever reason, makes the
    merge of its group reject with that error; the members after it and the
    artifact are not fetched and nothing is written. *)
Theorem member_fetch_failure_aborts_merge {W : Type} (s3 : S3 W)
        (g : DailyLogInfo) (w : W) (e : Error) (w' : W) (t : list Event) :
  FailsAt (fetch s3) w (logKeys g) e w' t ->
  consolidateDailyLog s3 g w = (Rejected e, w', t) /\
  Forall (fun ev => exists k, In k (logKeys g) /\ request ev = GetObject k) t.
Proof.
  intros F. apply walk_rejected_iff in F.
  pose proof (walk_fetch_requests s3 (logKeys g) w) as Hreq.
  rewrite F in Hreq. split; [ | exact Hreq ].
  unfold consolidateDailyLog, then_.
  rewrite readLogsForDay_run, walk_readFile_fetch, F. reflexivity.
Qed.


Lemma writesFollowReads_app (t1 t2 : list Event) :
  writesFollowReads t1 -> writesFollowReads t2 ->
  writesFollowReads (t1 ++ t2).
Proof.
  intros H1 H2 t0 k body o t' E.
  apply app_eq_app in E. destruct E as (l & [[E1 E2] | [E1 E2]]).
  - destruct l as [ | ev l].
    + simpl in E2. symmetry in E2.
      destruct (H2 [] k body o t' E2) as (t0' & o' & E).
      destruct t0'; discriminate.
    + simpl in E2. injection E2 as <- _.
      apply (H1 t0 k body o l). exact E1.
  - destruct (H2 l k body o t' E2) as (t0' & o' & ->).
    exists (t1 ++ t0'), o'. rewrite E1, app_assoc. reflexivity.
Qed.

Lemma writesFollowReads_no_put (t : list Event) :
  Forall (fun ev => isPut ev = false) t -> writesFollowReads t.
Proof.
  intros H t0 k body o t1 E. rewrite E in H.
  apply Forall_app in H. destruct H as [_ H].
  inversion H as [ | ? ? Hput _]. discriminate.
Qed.

Section Invocation.
Context {W : Type} (s3 : S3 W).

Lemma writesFollowReads_merge (g : DailyLogInfo) (w : W) :
  writesFollowReads (trace (consolidateDailyLog s3 g w)).
Proof.
  destruct (consolidateDailyLog_requests s3 g w) as (t1 & tl & -> & H1 & H2).
  apply writesFollowReads_app.
  - apply writesFollowReads_no_put. eapply Forall_impl; [ | exact H1 ].
    intros ev (k & _ & E). unfold isPut. rewrite E. reflexivity.
  - destruct H2 as [-> | [(o & ->) | (o & body & o' & ->)]].
    + apply writesFollowReads_no_put. constructor.
    + apply writesFollowReads_no_put. repeat constructor.
    + intros t0 k b o1 t' E.
      destruct t0 as [ | ev0 [ | ev1 t0]]; simpl in E.
      * discriminate.
      * inversion E; subst. exists [], o. reflexivity.
      * inversion E as [[E0 E1 E2]]. destruct t0; discriminate.
Qed.

Lemma writesFollowReads_walk {A B} (fn : A -> M W B) (items : list A) :
  (forall a w, writesFollowReads (trace (fn a w))) ->
  forall w, writesFollowReads (trace (walkListWithPromises items fn w)).
Proof.
  intros Hf. induction items as [ | a rest IH]; intros w.
  - apply writesFollowReads_no_put. constructor.
  - rewrite walk_cons. specialize (Hf a w).
    destruct (fn a w) as [[[b | e] w1] t1]; [ | exact Hf ].
    specialize (IH w1).
    destruct (walkListWithPromises rest fn w1) as [[[bs | e] w2] t2];
      unfold trace in *; cbn [snd] in *;
      apply writesFollowReads_app; assumption.
Qed.

Lemma writesFollowReads_loader (tbcd : string) (w : W) :
  writesFollowReads (trace (processTbLoader s3 tbcd w)).
Proof.
  rewrite processTbLoader_run.
  destruct (listObjectsV2 s3 tbcd w) as [[data | e] w1].
  2:{ apply writesFollowReads_no_put. repeat constructor. }
  pose proof (writesFollowReads_walk (consolidateDailyLog s3)
                (dayGroups (Contents data)) (writesFollowReads_merge) w1)
    as Hc.
  fold (consolidateDailyLogs s3 (dayGroups (Contents data))) in Hc.
  assert (L : forall o, writesFollowReads [mkEvent (ListObjectsV2 tbcd) o])
    by (intros; apply writesFollowReads_no_put; repeat constructor).
  assert (D : forall ks o, writesFollowReads [mkEvent (DeleteObjects ks) o])
    by (intros; apply writesFollowReads_no_put; repeat constructor).
  destruct (consolidateDailyLogs s3 (dayGroups (Contents data)) w1)
    as [[[gs | e] w2] t2]; unfold trace in *; cbn [snd] in *.
  - destruct (deleteObjects s3 (Contents data) w2) as [[u | e] w3];
      cbn [snd];
      apply (writesFollowReads_app [_]); try apply L;
      apply writesFollowReads_app; auto.
  - apply (writesFollowReads_app [_]); auto.
Qed.

End Invocation.

(** X11.  In an invocation, every write comes right after a read of the key
    it writes. *)
Theorem writes_follow_reads {W : Type} (s3 : S3 W) (w : W) :
  writesFollowReads (trace (handler s3 w)).
Proof.
  rewrite handler_run.
  assert (G : writesFollowReads (trace (getTbLoaderList s3 w))).
  { apply writesFollowReads_no_put.
    unfold getTbLoaderList, then_, send, resolve.
    destruct (listObjectsV2 s3 "log/" w) as [[data | e] w1];
      repeat constructor. }
  destruct (getTbLoaderList s3 w) as [[[paths | e] w1] t1];
    unfold trace in *; cbn [snd] in *; [ | exact G ].
  pose proof (writesFollowReads_walk (processTbLoader s3) paths
                (writesFollowReads_loader s3) w1) as Hw.
  unfold processTbLoaderList.
  destruct (walkListWithPromises paths (processTbLoader s3) w1)
    as [[[rs | e] w2] t2]; unfold trace in *; cbn [snd] in *;
    apply writesFollowReads_app; assumption.
Qed.

Lemma Forall_walk_in {W A B} (P : Event -> Prop) (fn : A -> M W B)
      (items : list A) :
  (forall a w, In a items -> Forall P (trace (fn a w))) ->
  forall w, Forall P (trace (walkListWithPromises items fn w)).
Proof.
  induction items as [ | a rest IH]; intros Hf w.
  - constructor.
  - rewrite walk_cons. pose proof (Hf a w (or_introl eq_refl)) as Ha.
    destruct (fn a w) as [[[b | e] w1] t1]; [ | exact Ha ].
    assert (Hr : Forall P (trace (walkListWithPromises rest fn w1)))
      by (apply IH; intros a' w' H'; apply Hf; right; exact H').
    destruct (walkListWithPromises rest fn w1) as [[[bs | e] w2] t2];
      unfold trace in *; cbn [snd] in *; apply Forall_app; auto.
Qed.

(** X12.  The requests of the run of one loader are the listing of its
    prefix, reads of listed keys that match the pattern and of artifact
    keys of its groups, writes to artifact keys of its groups, and the
    delete of what was listed; no write goes to a key that matches the
    pattern.  When the listing fails it is the only request. *)
Theorem loader_requests_confined {W : Type} (s3 : S3 W) (tbcd : string)
        (w : W) :
  match outcome (getLogFileList s3 tbcd w) with
  | Resolved listing =>
      Forall (loaderRequest tbcd listing)
             (trace (processTbLoader s3 tbcd w)) /\
      forall ev k body,
        In ev (trace (processTbLoader s3 tbcd w)) ->
        request ev = PutObject k body -> matchesName k = false
  | Rejected e =>
      trace (processTbLoader s3 tbcd w)
      = [mkEvent (ListObjectsV2 tbcd) (Some e)]
  end.
Proof.
  rewrite processTbLoader_run, getLogFileList_run.
  destruct (listObjectsV2 s3 tbcd w) as [[data | e] w1];
    unfold outcome; cbn [fst]; [ | reflexivity ].
  set (listing := Contents data).
  assert (Hc : Forall (loaderRequest tbcd listing)
                 (trace (consolidateDailyLogs s3 (dayGroups listing) w1))).
  { apply Forall_walk_in. intros g w' Hg.
    destruct (consolidateDailyLog_requests s3 g w')
      as (t1 & tl & -> & H1 & H2).
    apply Forall_app. split.
    - eapply Forall_impl; [ | exact H1 ].
      intros ev (k & Hk & E). unfold loaderRequest. rewrite E. left.
      apply (dayGroups_members listing g k Hg Hk).
    - assert (Hget : forall o, loaderRequest tbcd listing
                                 (mkEvent (GetObject (key g)) o))
        by (intros o; right; exists g; auto).
      assert (Hput : forall body o, loaderRequest tbcd listing
                                 (mkEvent (PutObject (key g) body) o))
        by (intros body o; exists g; auto).
      destruct H2 as [-> | [(o & ->) | (o & body & o' & ->)]].
      + constructor.
      + constructor; [apply Hget | constructor].
      + constructor; [apply Hget | ].
        constructor; [apply Hput | constructor]. }
  assert (Hl : loaderRequest tbcd listing (mkEvent (ListObjectsV2 tbcd) None))
    by reflexivity.
  assert (Hd : forall o, loaderRequest tbcd listing
                           (mkEvent (DeleteObjects listing) o))
    by reflexivity.
  assert (Main : forall t,
             Forall (loaderRequest tbcd listing) t ->
             Forall (loaderRequest tbcd listing) t /\
             forall ev k body,
               In ev t -> request ev = PutObject k body ->
               matchesName k = false).
  { intros t Ht. split; [exact Ht | ].
    intros ev k body Hin E. rewrite Forall_forall in Ht.
    specialize (Ht ev Hin). unfold loaderRequest in Ht. rewrite E in Ht.
    destruct Ht as (g & Hg & ->).
    destruct (partitionByDays_spec listing) as (groups & Eg & Hok & _).
    rewrite partitionByDays_dayGroups in Eg. injection Eg as <-.
    rewrite Forall_forall in Hok.
    apply (artifact_key_unmatched g (Hok g Hg)). }
  destruct (consolidateDailyLogs s3 (dayGroups listing) w1)
    as [[[gs | e] w2] t2]; unfold trace in *; cbn [snd] in *.
  - destruct (deleteObjects s3 listing w2) as [[u | e] w3]; cbn [snd];
      apply Main; (constructor; [exact Hl | ]);
      apply Forall_app; (split; [exact Hc | ]);
      (constructor; [apply Hd | constructor]).
  - apply Main. constructor; assumption.
Qed.

Lemma getOrPut_not_list (t : list Event) :
  Forall getOrPut t -> filter isList t = [].
Proof.
  induction 1 as [ | ev t Hev _ IH]; [reflexivity | ].
  simpl. rewrite IH.
  destruct Hev as [H | H]; unfold isGet, isPut, isList in *;
    destruct (request ev); try discriminate; reflexivity.
Qed.

(** A loader that is processed with success got one listing and one delete
    request. *)
Lemma processTbLoader_counts {W : Type} (s3 : S3 W) (tbcd : string)
      (w : W) z w' t :
  processTbLoader s3 tbcd w = (Resolved z, w', t) ->
  length (filter isDelete t) = 1 /\ length (filter isList t) = 1.
Proof.
  rewrite processTbLoader_run.
  destruct (listObjectsV2 s3 tbcd w) as [[data | e] w1]; [ | discriminate ].
  pose proof (consolidateDailyLogs_emits s3 (dayGroups (Contents data)) w1)
    as Hem.
  destruct (consolidateDailyLogs s3 _ w1) as [[[gs | e] w2] t2];
    [ | discriminate ].
  unfold trace in Hem; cbn [snd] in Hem.
  destruct (getOrPut_not_delete _ Hem) as [_ Zd].
  pose proof (getOrPut_not_list _ Hem) as Zl.
  destruct (deleteObjects s3 _ w2) as [[u | e] w3]; [ | discriminate ].
  intros [= _ _ <-]. simpl. rewrite !filter_app, Zd, Zl. split; reflexivity.
Qed.

(** X13.  An invocation that ends without error has sent one listing request
    for the root and, for every enumerated loader, one listing and one
    delete request. *)
Theorem success_one_delete_per_loader {W : Type} (s3 : S3 W) (w : W)
        (paths : list string) (w1 : W) (t1 : list Event) :
  getTbLoaderList s3 w = (Resolved paths, w1, t1) ->
  cb_err (callbackOf (handler s3 w)) = None ->
  length (filter isDelete (trace (handler s3 w))) = length paths /\
  length (filter isList (trace (handler s3 w))) = S (length paths).
Proof.
  intros G. rewrite handler_run, G.
  assert (T1 : t1 = [mkEvent (ListObjectsV2 "log/") None]).
  { unfold getTbLoaderList, then_, send, resolve in G.
    destruct (listObjectsV2 s3 "log/" w) as [[data | e] w0];
      [ | discriminate ].
    injection G as _ _ <-. reflexivity. }
  unfold processTbLoaderList.
  destruct (walkListWithPromises paths (processTbLoader s3) w1)
    as [[[rs | e] w2] t2] eqn:Wk; unfold callbackOf, trace; cbn [fst snd];
    [ | discriminate ].
  intros _. apply walk_resolved_iff in Wk. subst t1. simpl.
  assert (H : length (filter isDelete t2) = length paths /\
              length (filter isList t2) = length paths).
  { clear G. induction Wk as [ | w0 p b wa ta rest bs wb tb E S [IHd IHl]];
      [split; reflexivity | ].
    destruct (processTbLoader_counts s3 _ _ _ _ _ E) as [Cd Cl].
    rewrite !filter_app, !length_app, Cd, Cl, IHd, IHl. split; reflexivity. }
  destruct H as [-> ->]. split; reflexivity.
Qed.

(** X1.  Whatever the order of the input, [partitionByDays] returns without
    throwing; the members of its groups, in order, are the matching keys
    of the input in their order; no group is empty; [log] and [priorLog]
    are not set yet; two consecutive groups never have the same date. *)
Theorem partitionByDays_any_order (keys : list string) :
  exists groups,
    partitionByDays keys = Resolved groups /\
    concat (map logKeys groups) = filter matchesName keys /\
    Forall (fun g => logKeys g <> [] /\ log g = None /\ priorLog g = None)
           groups /\
    adjacentDistinct (map groupDate groups) /\
    length groups <= length (filter matchesName keys).
Proof.
  destruct (partitionByDays_spec keys) as (groups & E & Hok & Hadj & Hcat).
  exists groups. split; [exact E | ]. split; [exact Hcat | ].
  split; [ | split; [exact Hadj | ] ].
  - eapply Forall_impl; [ | exact Hok ].
    intros g [Gne _ _ [Gl Gp] _ _]. auto.
  - rewrite <- Hcat. clear - Hok.
    induction Hok as [ | g l Hg _ IH]; [simpl; lia | ].
    simpl. rewrite length_app.
    destruct (logKeys g) eqn:El; [destruct Hg; congruence | ].
    simpl. lia.
Qed.

(** ** The time of day in a fragment name *)

Lemma digit_not_Z (a : ascii) :
  Js.isDigit a = true -> Js.eqbIgnoreCase "Z" a = false.
Proof.
  destruct a as [[] [] [] [] [] [] [] []]; vm_compute;
    intros H; try reflexivity; discriminate H.
Qed.

Lemma digit_not_l (a : ascii) :
  Js.isDigit a = true -> Js.eqbIgnoreCase "l" a = false.
Proof.
  destruct a as [[] [] [] [] [] [] [] []]; vm_compute;
    intros H; try reflexivity; discriminate H.
Qed.

(** After the [T]: when two digits come next, the match went through the
    group of the time, which takes six digits, a dot and three digits at
    least. *)
Lemma time_group_taken (a b : ascii) (s : string) (c : captures)
      (k : string -> string -> string -> captures -> option captures) res :
  Js.isDigit a = true -> Js.isDigit b = true ->
  matchRe true
    (Opt (Group 6 (Seq (times 6 Digit)
                       (Group 7 (Seq (Lit ".") (rep 3 6 Digit))))))
    (String a (String b s)) c
    (fun m1 s1 c1 =>
       matchRe true
         (Seq (Opt (Lit "Z")) (Seq Dot (Seq (lits "log") Eps)))
         s1 c1 (k m1)) = Some res ->
  exists d3 d4 d5 d6 dot f1 f2 f3 rest,
    s = String d3 (String d4 (String d5 (String d6
          (String dot (String f1 (String f2 (String f3 rest))))))) /\
    allDigits (String d3 (String d4 (String d5 (String d6 EmptyString))))
    = true /\
    dot = "."%char /\
    allDigits (String f1 (String f2 (String f3 EmptyString))) = true.
Proof.
  intros Da Db H.
  cbn [matchRe] in H.
  match type of H with
  | match ?X with Some _ => _ | None => _ end = _ =>
      destruct X as [res' | ] eqn:G
  end.
  - (* the group of the time took part *)
    clear H. cbn [matchRe times rep upto Nat.sub] in G. rewrite Da, Db in G.
    destruct s as [ | d3 [ | d4 [ | d5 [ | d6 [ | dot s]]]]];
      try discriminate G;
      repeat match type of G with
             | context [Js.isDigit ?x] =>
                 let E := fresh "E" in
                 destruct (Js.isDigit x) eqn:E; [ | discriminate G ]
             end; try discriminate G.
    destruct (Js.eqbIgnoreCase "." dot) eqn:Ed; [ | discriminate G ].
    destruct s as [ | f1 [ | f2 [ | f3 rest]]]; try discriminate G;
      repeat match type of G with
             | context [Js.isDigit ?x] =>
                 let E := fresh "E" in
                 destruct (Js.isDigit x) eqn:E; [ | discriminate G ]
             end; try discriminate G.
    exists d3, d4, d5, d6, dot, f1, f2, f3, rest.
    split; [reflexivity | ]. cbn [allDigits].
    repeat match goal with E : Js.isDigit _ = true |- _ => rewrite E; clear E end.
    split; [reflexivity | ]. split; [ | reflexivity ].
    clear - Ed. destruct dot as [[] [] [] [] [] [] [] []];
      first [reflexivity | discriminate Ed].
  - (* without it the next characters would have to be [.log] *)
    exfalso. rewrite (digit_not_Z a Da) in H.
    destruct (Js.isLineTerminator a); [discriminate H | ].
    cbn [lits matchRe] in H. rewrite (digit_not_l b Db) in H.
    discriminate H.
Qed.

(** X14.  A key that matches and has two digits after the [T] has six
    digits there, then a dot and three more digits: a time of day is only
    accepted together with a fraction of a second. *)
Theorem time_needs_fraction (k : string) :
  matchesName k = true ->
  allDigits (substring 22 2 k) = true ->
  String.length (substring 22 2 k) = 2 ->
  allDigits (substring 22 6 k) = true /\
  substring 28 1 k = "." /\
  allDigits (substring 29 3 k) = true /\
  32 <= String.length k.
Proof.
  unfold matchesName, nameRe_exec, exec.
  destruct (matchRe true nameRe_body k noCaptures
              (fun m _ c => Some (setCapture 0 m c))) as [c | ] eqn:H;
    [ | discriminate ].
  intros _.
  unfold nameRe_body in H. cbn [seqs lits times] in H.
  repeat step_re H.
  cbn [substring].
  destruct s0 as [ | a21 [ | b21 s]]; cbn [substring];
    rewrite ?substring_0_0; try discriminate.
  cbn [allDigits String.length]. intros D _.
  apply andb_true_iff in D. destruct D as [Da D].
  apply andb_true_iff in D. destruct D as [Db _].
  apply time_group_taken in H; [ | exact Da | exact Db ].
  destruct H
    as (d3 & d4 & d5 & d6 & dot & f1 & f2 & f3 & rest & -> & D4 & -> & D3).
  cbn [substring allDigits String.length] in *.
  rewrite !substring_0_0. rewrite Da, Db.
  apply andb_true_iff in D4. destruct D4 as [-> D4].
  apply andb_true_iff in D4. destruct D4 as [-> D4].
  apply andb_true_iff in D4. destruct D4 as [-> D4].
  apply andb_true_iff in D4. destruct D4 as [-> _].
  apply andb_true_iff in D3. destruct D3 as [-> D3].
  apply andb_true_iff in D3. destruct D3 as [-> D3].
  apply andb_true_iff in D3. destruct D3 as [-> _].
  repeat split; lia.
Qed.

(** ** The further properties on sample inputs *)

Lemma group_0730_a_ok : GroupOk (group_0730 [key_0730_a]).
Proof.
  destruct (partitionByDays_spec [key_0730_a]) as (groups & E & Hok & _).
  vm_compute in E. injection E as <-.
  inversion Hok as [ | ? ? H _]. exact H.
Qed.

Lemma group_0730_c_ok : GroupOk (group_0730 [key_0730_c]).
Proof.
  destruct (partitionByDays_spec [key_0730_c]) as (groups & E & Hok & _).
  vm_compute in E. injection E as <-.
  inversion Hok as [ | ? ? H _]. exact H.
Qed.

Lemma fragment_key_positions_witness :
  keyTb key_0730_a = Some "tbcd1234" /\
  keyDate key_0730_a = Some "20210730" /\
  keyGroup DAYIX key_0730_a = Some "30".
Proof.
  destruct (fragment_key_positions key_0730_a eq_refl)
    as (T & D & _ & _ & Da & _).
  split; [exact T | split; [exact D | exact Da] ].
Defined.

Lemma pattern_ignores_suffix_witness :
  matchesName (key_0730_a ++ ".bak") = true.
Proof.
  exact (proj1 (pattern_ignores_suffix key_0730_a ".bak" eq_refl)).
Defined.

Lemma loader_filter_accepts_fragments_witness :
  isLoaderPath "log/tbcd1234/" = true.
Proof.
  apply (loader_filter_accepts_fragments key_0730_a "log/tbcd1234/");
    [reflexivity | reflexivity | simpl; lia].
Defined.


Lemma artifact_key_injective_witness :
  groupDate (group_0730 [key_0730_a]) = groupDate (group_0730 [key_0730_c]).
Proof.
  apply (artifact_key_injective _ _ group_0730_a_ok group_0730_c_ok).
  reflexivity.
Defined.

Lemma sorted_listing_distinct_artifacts_witness :
  NoDup (map key (dayGroups
                    [key_0730_a; key_readme; key_0730_c; key_0731_a])).
Proof.
  apply sorted_listing_distinct_artifacts.
  apply contiguousb_sound. vm_compute. reflexivity.
Defined.


Lemma member_fetch_failure_aborts_merge_witness :
  consolidateDailyLog MemStore.s3
    (group_0730 [key_0730_a; key_missing; key_0730_c]) store_two_fragments
  = (Rejected MemStore.NoSuchKey, store_two_fragments,
     [ mkEvent (GetObject key_0730_a) None;
       mkEvent (GetObject key_missing) (Some MemStore.NoSuchKey) ]).
Proof.
  refine (proj1 (member_fetch_failure_aborts_merge
                   MemStore.s3
                   (group_0730 [key_0730_a; key_missing; key_0730_c])
                   store_two_fragments _ _ _ _)).
  apply walk_rejected_iff. reflexivity.
Defined.

Lemma success_one_delete_per_loader_witness :
  length (filter isDelete (trace (handler MemStore.s3 store_scenario))) = 1 /\
  length (filter isList (trace (handler MemStore.s3 store_scenario))) = 2.
Proof.
  apply (success_one_delete_per_loader
           MemStore.s3 store_scenario ["log/tbcd1234/"] store_scenario
           [mkEvent (ListObjectsV2 "log/") None]);
    reflexivity.
Defined.

Lemma time_needs_fraction_witness :
  substring 28 1 key_0730_a = "." /\
  allDigits (substring 29 3 key_0730_a) = true.
Proof.
  destruct (time_needs_fraction key_0730_a eq_refl eq_refl eq_refl)
    as (_ & D & F & _).
  split; [exact D | exact F].
Defined.

(** ** The partition of the listing of one loader *)

Lemma substring_get (s : string) :
  forall n c, substring n 1 s = String c EmptyString -> String.get n s = Some c.
Proof.
  induction s as [ | a s IH]; intros [ | n] c H; simpl in *;
    try discriminate.
  - rewrite RegexShape.substring_0_0 in H. congruence.
  - apply IH. exact H.
Qed.

Lemma noSlash_get (s : string) :
  noSlash s = true -> forall i, String.get i s <> Some "/"%char.
Proof.
  induction s as [ | a s IH]; intros H i; simpl in *.
  - destruct i; discriminate.
  - apply andb_true_iff in H. destruct H as [Ha Hs].
    destruct i as [ | i]; [ | apply IH; exact Hs ].
    intros [= ->]. discriminate.
Qed.

(** In a name without [/] followed by [/] and a rest without [/], the one
    [/] sits right after the name. *)
Lemma get_one_slash (name rest : string) :
  noSlash name = true -> noSlash rest = true ->
  forall i, String.get i (name ++ "/" ++ rest)%string = Some "/"%char ->
            i = String.length name.
Proof.
  intros Hn Hr. induction name as [ | a name IH]; intros i H; simpl in *.
  - destruct i as [ | i]; [reflexivity | ].
    exfalso. exact (noSlash_get rest Hr i H).
  - apply andb_true_iff in Hn. destruct Hn as [Ha Hn].
    destruct i as [ | i].
    + injection H as ->. discriminate.
    + f_equal. apply IH; assumption.
Qed.

Lemma substring_whole_prefix (a b : string) :
  substring 0 (String.length a) (a ++ b) = a.
Proof.
  induction a as [ | c a IH]; simpl.
  - apply RegexShape.substring_0_0.
  - rewrite IH. reflexivity.
Qed.

(** The keys listed under a loader prefix that match the pattern all carry
    the name of the prefix as their loader. *)
Lemma listing_loader (p : string) (keys : list string) :
  loaderPrefix p -> listedUnder p keys ->
  forall k, In k keys -> matchesName k = true ->
            keyTb k = Some (substring 4 8 p).
Proof.
  intros (name & -> & Hn) Hl k Hk Hm.
  destruct (Hl k Hk) as (rest & -> & Hr).
  unfold keyTb, keyGroup. unfold matchesName in Hm.
  destruct (nameRe_exec (("log/" ++ name ++ "/") ++ rest)) as [parse | ] eqn:E;
    [ | discriminate ].
  destruct (nameRe_exec_shape _ _ E) as (T & _ & _ & _ & _ & _ & Sl & _).
  rewrite T. f_equal.
  apply substring_get in Sl.
  assert (L : String.length name = 8).
  { symmetry. apply (get_one_slash name rest Hn Hr).
    cbn [append] in Sl. rewrite append_assoc in Sl. exact Sl. }
  cbn [append substring]. rewrite append_assoc. rewrite <- L.
  rewrite !substring_whole_prefix. reflexivity.
Qed.

Lemma listing_oneSource (p : string) (keys : list string) :
  loaderPrefix p -> listedUnder p keys -> oneSource keys.
Proof.
  intros Hp Hl k k' Hk Hk' Hm Hm'.
  rewrite (listing_loader p keys Hp Hl k Hk Hm),
          (listing_loader p keys Hp Hl k' Hk' Hm').
  reflexivity.
Qed.

Lemma NoDup_map_eq {A B} (f : A -> B) (l : list A) :
  NoDup (map f l) ->
  forall a b, In a l -> In b l -> f a = f b -> a = b.
Proof.
  induction l as [ | x l IH]; intros H a b Ha Hb E; [destruct Ha | ].
  simpl in H. inversion H as [ | ? ? Hx Hl]; subst.
  destruct Ha as [-> | Ha], Hb as [-> | Hb].
  - reflexivity.
  - exfalso. apply Hx. rewrite E. apply in_map. exact Hb.
  - exfalso. apply Hx. rewrite <- E. apply in_map. exact Ha.
  - apply IH; assumption.
Qed.

(** C4.  For the keys of one source (as the listing of one loader prefix
    is, by [listing_oneSource]) in which the matching keys of the same
    derived date are contiguous, [partitionByDays] returns without
    throwing, with one group per run of same-date keys: the members of the
    groups, in order, are exactly the matching keys, no group is empty, and
    no two groups share a date.  Every matching key is a member of exactly
    one group.  The groups partition the matching keys by (loader, date):
    every member carries the loader and the date of its group, and two
    members are in the same group exactly when they agree on loader and
    date.  The empty input gives the empty list. *)
Theorem C4_partition_completeness (keys : list string) :
  oneSource keys ->
  contiguous (map keyDate (filter matchesName keys)) ->
  exists groups,
    partitionByDays keys = Resolved groups /\
    concat (map logKeys groups) = filter matchesName keys /\
    Forall GroupOk groups /\
    NoDup (map groupDate groups) /\
    (forall k, In k keys -> matchesName k = true ->
       exists i, i < length groups /\
                 In k (logKeys (nth i groups noGroup)) /\
                 forall j, j < length groups ->
                           In k (logKeys (nth j groups noGroup)) -> j = i) /\
    partitionsBySourceAndDate groups /\
    (forall g g' k k',
        In g groups -> In g' groups ->
        In k (logKeys g) -> In k' (logKeys g') ->
        (g = g' <-> keyTb k = keyTb k' /\ keyDate k = keyDate k')) /\
    (keys = [] -> groups = []).
Proof.
  intros H1 Hc.
  destruct (partitionByDays_by_date keys Hc)
    as (groups & E & Hcat & Hok & Hnd & Hone & Hdate & _ & Hnil).
  exists groups.
  assert (Hmem : forall g k, In g groups -> In k (logKeys g) ->
                             In k keys /\ matchesName k = true).
  { intros g k Hg Hk. apply filter_In. rewrite <- Hcat.
    apply in_concat. exists (logKeys g). split; [ | exact Hk ].
    apply in_map. exact Hg. }
  assert (Hpart : partitionsBySourceAndDate groups).
  { intros g k Hg Hk. split; [ | apply Hdate; assumption ].
    rewrite Forall_forall in Hok.
    destruct (ok_tb _ (Hok g Hg)) as (k0 & rest & Hk0 & ->).
    assert (Hin0 : In k0 (logKeys g)) by (rewrite Hk0; left; reflexivity).
    destruct (Hmem g k Hg Hk) as [Hin Hm].
    destruct (Hmem g k0 Hg Hin0) as [Hin' Hm'].
    apply H1; assumption. }
  split; [exact E | ]. split; [exact Hcat | ]. split; [exact Hok | ].
  split; [exact Hnd | ]. split; [exact Hone | ]. split; [exact Hpart | ].
  split; [ | exact Hnil ].
  intros g g' k k' Hg Hg' Hk Hk'. split.
  - intros <-.
    destruct (Hpart g k Hg Hk) as [T D], (Hpart g k' Hg Hk') as [T' D'].
    split; congruence.
  - intros [_ D]. apply (NoDup_map_eq groupDate groups Hnd); try assumption.
    rewrite <- (Hdate g k Hg Hk), <- (Hdate g' k' Hg' Hk'). exact D.
Qed.

(** The theorem at a listing of two days of one loader, with a stray key
    in it. *)
Lemma C4_partition_completeness_witness :
  exists groups,
    partitionByDays [key_0730_a; key_readme; key_0730_c; key_0731_a]
    = Resolved groups /\
    map logKeys groups = [[key_0730_a; key_0730_c]; [key_0731_a]] /\
    map tb groups = [Some "tbcd1234"; Some "tbcd1234"] /\
    map groupDate groups = [Some "20210730"; Some "20210731"] /\
    partitionsBySourceAndDate groups.
Proof.
  destruct (C4_partition_completeness
              [key_0730_a; key_readme; key_0730_c; key_0731_a])
    as (groups & E & _ & _ & _ & _ & P & _).
  - intros k k' Hk Hk' Hm Hm'.
    repeat (destruct Hk as [<- | Hk]; [ | ]); try destruct Hk;
      repeat (destruct Hk' as [<- | Hk']; [ | ]); try destruct Hk';
      try reflexivity; vm_compute in Hm, Hm'; discriminate.
  - apply contiguousb_sound. vm_compute. reflexivity.
  - exists groups. split; [exact E | ].
    vm_compute in E. injection E as <-.
    split; [reflexivity | ]. split; [reflexivity | ].
    split; [reflexivity | ]. exact P.
Defined.
